(** * Match coordination over WebSockets (chat-service, [wsHandler])

    A shallow embedding of the real-time match-coordination code of the
    chat service: the connection registry [clients], the invite table
    [activeInvites], the live session table [activeGames], the handlers
    dispatched by the message router, the invite expiry timer and the
    two suspension points at the persistence gateway.

    The handlers are state-passing functions that return the new state
    together with the list of effects they perform, in program order:
    a [Send] per [client.send], a [DbCreate] per [prisma.game.create] and
    a [DbUpdate] per [prisma.game.update].  Values that come from the
    environment ([generateId()], [new Date()], the gateway's reply) are
    arguments. *)

From stdpp Require Import gmap strings list fin_maps.
From Stdlib Require Import ZArith Lia.

Local Open Scope Z_scope.

(** ** Data model *)

(** A socket object; two sockets are the same object iff they carry the
    same number. *)
Definition Handle := nat.

(** JSON payloads that are relayed without being inspected. *)
#[local] Unset Elimination Schemes.
Inductive Json :=
| JNull
| JBool (b : bool)
| JNum (n : Z)
| JStr (s : string)
| JArr (items : list Json)
| JObj (fields : list (string * Json)).
#[local] Set Elimination Schemes.

(** Entry of [activeInvites]. *)
Record Invite := mkInvite {
  i_id : string;
  fromUserId : Z;
  fromUsername : string;
  toUserId : Z;
  createdAt : Z
}.

(** Entry of [activeGames]; [dbGameId] is the optional field [dbGameId?]. *)
Record Game := mkGame {
  g_id : string;
  hostId : Z;
  guestId : Z;
  dbGameId : option Z
}.

(** Outbound envelopes, one constructor per [type] tag. *)
Inductive Envelope :=
| Pong
| GameInviteError (error : string)
| GameInviteMsg (id : string) (from_user_id : Z) (from_username : string)
    (created_at : Z) (* the instant whose ISO rendering is sent *)
| GameInviteSent (invite_id : string) (to_user_id : Z)
| GameInviteExpired (invite_id : string)
| GameInviteAccepted (game_id : string) (db_game_id : Z) (opponent_id : Z)
    (is_host : bool)
| GameInviteDeclined (invite_id : string)
| GamePaddleUpdate (game_id : string) (paddle_y : Z)
| GameStateMsg (game_id : string) (state : Json)
| GameEnded (game_id : string) (winner_id left_score right_score : Z)
| NewMessage (from : Z) (content : string) (messageId : Z).

(** Inbound envelopes, as the [switch (message.type)] of the router sees
    them; [MOther] is any type without a case. *)
Inductive ClientMsg :=
| MPing
| MGameInvite (to_user_id : Z)
| MInviteAccept (invite_id : string)
| MInviteDecline (invite_id : string)
| MPaddleUpdate (game_id : string) (paddle_y : Z)
| MGameState (game_id : string) (state : Json)
| MGameEnd (game_id : string) (winner_id left_score right_score : Z)
| MOther.

Inductive Effect :=
| Send (client : Handle) (message : Envelope)
| DbCreate (player1Id player2Id : Z) (gameMode : string)
| DbUpdate (where_id : Z) (player1Score player2Score winnerId : Z).

(** What an awaited gateway call gives back: the row's id, or a rejection. *)
Inductive Reply :=
| Returned (row_id : Z)
| Threw.

(** The closure handed to [setTimeout(..., 60000)] by [handleGameInvite]. *)
Record Timer := mkTimer {
  tm_inviteId : string;
  tm_fromUserId : Z;
  tm_delay : Z
}.

(** A handler suspended at an [await], with the locals it resumes with. *)
Inductive Suspended :=
| AwaitCreate (acceptingUserId : Z) (inviteId : string) (invite : Invite)
| AwaitUpdate (gameId : string) (game : Game)
    (winnerId leftScore rightScore : Z).

Record State := mkState {
  clients : gmap Z (list Handle);
  activeInvites : gmap string Invite;
  activeGames : gmap string Game;
  timers : list Timer;
  suspended : list Suspended;
  nextSocket : Handle
}.

Definition init : State := mkState ∅ ∅ ∅ [] [] 0%nat.

Definition with_clients (f : gmap Z (list Handle) → gmap Z (list Handle))
    (st : State) : State :=
  mkState (f (clients st)) (activeInvites st) (activeGames st) (timers st)
    (suspended st) (nextSocket st).

Definition with_activeInvites
    (f : gmap string Invite → gmap string Invite) (st : State) : State :=
  mkState (clients st) (f (activeInvites st)) (activeGames st) (timers st)
    (suspended st) (nextSocket st).

Definition with_activeGames (f : gmap string Game → gmap string Game)
    (st : State) : State :=
  mkState (clients st) (activeInvites st) (f (activeGames st)) (timers st)
    (suspended st) (nextSocket st).

Definition with_timers (f : list Timer → list Timer) (st : State) : State :=
  mkState (clients st) (activeInvites st) (activeGames st) (f (timers st))
    (suspended st) (nextSocket st).

Definition with_suspended (f : list Suspended → list Suspended)
    (st : State) : State :=
  mkState (clients st) (activeInvites st) (activeGames st) (timers st)
    (f (suspended st)) (nextSocket st).

(** ** Connection registry *)

(** [Set.prototype.add]: insertion-ordered, no duplicates. *)
Definition set_add (h : Handle) (s : list Handle) : list Handle :=
  if decide (h ∈ s) then s else s ++ [h].

(** [Set.prototype.delete]. *)
Definition set_delete (h : Handle) (s : list Handle) : list Handle :=
  filter (λ x, x ≠ h) s.

(** The live handles of a user; the empty list when there is no entry. *)
Definition handles (st : State) (userId : Z) : list Handle :=
  default [] (clients st !! userId).

(** [clients.has(userId)]. *)
Definition isOnline (st : State) (userId : Z) : bool :=
  bool_decide (is_Some (clients st !! userId)).

(** Registration of a freshly accepted socket under the verified user. *)
Definition register (userId : Z) (socket : Handle) (st : State) : State :=
  with_clients
    (λ cl, <[userId := set_add socket (default [] (cl !! userId))]> cl) st.

(** The [close] callback of a connection. *)
Definition unregister (userId : Z) (socket : Handle) (st : State) : State :=
  match clients st !! userId with
  | Some userClients =>
      let rest := set_delete socket userClients in
      if decide (rest = [])
      then with_clients (delete userId) st
      else with_clients (<[userId := rest]>) st
  | None => st
  end.

Definition sendToUser (st : State) (userId : Z) (message : Envelope)
    : list Effect :=
  match clients st !! userId with
  | Some userClients => (λ client, Send client message) <$> userClients
  | None => []
  end.

(** ** Invite manager *)

Definition handleGameInvite (st : State) (fromUserId0 : Z)
    (fromUsername0 : string) (toUserId0 : Z) (inviteId : string) (now : Z)
    : State * list Effect :=
  if negb (isOnline st toUserId0) then
    (st, sendToUser st fromUserId0 (GameInviteError "User is not online"))
  else
    let invite := mkInvite inviteId fromUserId0 fromUsername0 toUserId0 now in
    let st1 := with_activeInvites (<[inviteId := invite]>) st in
    let st2 := with_timers (λ ts, ts ++ [mkTimer inviteId fromUserId0 60000])
                 st1 in
    (st2,
     sendToUser st1 toUserId0
       (GameInviteMsg inviteId fromUserId0 fromUsername0 (createdAt invite))
     ++ sendToUser st1 fromUserId0 (GameInviteSent inviteId toUserId0)).

(** Body of the expiry callback. *)
Definition expireInvite (st : State) (tm : Timer) : State * list Effect :=
  if bool_decide (is_Some (activeInvites st !! tm_inviteId tm)) then
    let st1 := with_activeInvites (delete (tm_inviteId tm)) st in
    (st1, sendToUser st1 (tm_fromUserId tm)
            (GameInviteExpired (tm_inviteId tm)))
  else (st, []).

(** [handleInviteAccept] up to its [await prisma.game.create(...)]. *)
Definition handleInviteAccept (st : State) (acceptingUserId : Z)
    (inviteId : string) : State * list Effect :=
  match activeInvites st !! inviteId with
  | Some invite =>
      if bool_decide (toUserId invite ≠ acceptingUserId) then
        (st, sendToUser st acceptingUserId
               (GameInviteError "Invite not found or expired"))
      else
        let st1 := with_activeInvites (delete inviteId) st in
        (with_suspended
           (λ ks, ks ++ [AwaitCreate acceptingUserId inviteId invite]) st1,
         [DbCreate (fromUserId invite) acceptingUserId "online"])
  | None =>
      (st, sendToUser st acceptingUserId
             (GameInviteError "Invite not found or expired"))
  end.

(** [handleInviteAccept] from the point where the gateway has answered;
    [gameId] is the value of [generateId()].  A rejection propagates out
    of the handler and is caught and logged by the router. *)
Definition handleInviteAccept_resumed (st : State) (acceptingUserId : Z)
    (invite : Invite) (reply : Reply) (gameId : string)
    : State * list Effect :=
  match reply with
  | Threw => (st, [])
  | Returned dbGame_id =>
      let st1 :=
        with_activeGames
          (<[gameId := mkGame gameId (fromUserId invite) acceptingUserId
                         (Some dbGame_id)]>) st in
      (st1,
       sendToUser st1 (fromUserId invite)
         (GameInviteAccepted gameId dbGame_id acceptingUserId true)
       ++ sendToUser st1 acceptingUserId
            (GameInviteAccepted gameId dbGame_id (fromUserId invite) false))
  end.

Definition handleInviteDecline (st : State) (decliningUserId : Z)
    (inviteId : string) : State * list Effect :=
  match activeInvites st !! inviteId with
  | Some invite =>
      if bool_decide (toUserId invite ≠ decliningUserId) then (st, [])
      else
        let st1 := with_activeInvites (delete inviteId) st in
        (st1, sendToUser st1 (fromUserId invite)
                (GameInviteDeclined inviteId))
  | None => (st, [])
  end.

(** ** Session registry *)

Definition relayPaddleUpdate (st : State) (fromUserId0 : Z)
    (gameId : string) (paddleY : Z) : State * list Effect :=
  match activeGames st !! gameId with
  | None => (st, [])
  | Some game =>
      let targetUserId :=
        if bool_decide (hostId game = fromUserId0) then guestId game
        else hostId game in
      (st, sendToUser st targetUserId (GamePaddleUpdate gameId paddleY))
  end.

Definition relayGameState (st : State) (fromUserId0 : Z) (gameId : string)
    (state : Json) : State * list Effect :=
  match activeGames st !! gameId with
  | None => (st, [])
  | Some game =>
      if bool_decide (hostId game ≠ fromUserId0) then (st, [])
      else (st, sendToUser st (guestId game) (GameStateMsg gameId state))
  end.

(** The tail of [handleGameEnd]: notify both players, drop the session. *)
Definition finishGameEnd (st : State) (gameId : string) (game : Game)
    (winnerId leftScore rightScore : Z) : State * list Effect :=
  let endMessage := GameEnded gameId winnerId leftScore rightScore in
  (with_activeGames (delete gameId) st,
   sendToUser st (hostId game) endMessage
   ++ sendToUser st (guestId game) endMessage).

(** The id to update when [game.dbGameId] is truthy: present and not 0. *)
Definition truthyId (o : option Z) : option Z :=
  match o with
  | Some d => if bool_decide (d = 0) then None else Some d
  | None => None
  end.

(** [handleGameEnd] up to its [await prisma.game.update(...)], or to its
    end when the session has no truthy [dbGameId]. *)
Definition handleGameEnd (st : State) (fromUserId0 : Z) (gameId : string)
    (winnerId leftScore rightScore : Z) : State * list Effect :=
  match activeGames st !! gameId with
  | None => (st, [])
  | Some game =>
      match truthyId (dbGameId game) with
      | Some d =>
          (with_suspended
             (λ ks, ks ++ [AwaitUpdate gameId game winnerId leftScore
                             rightScore]) st,
           [DbUpdate d leftScore rightScore winnerId])
      | None => finishGameEnd st gameId game winnerId leftScore rightScore
      end
  end.

Definition handleGameEnd_resumed (st : State) (gameId : string)
    (game : Game) (winnerId leftScore rightScore : Z) (reply : Reply)
    : State * list Effect :=
  match reply with
  | Threw => (st, [])
  | Returned _ => finishGameEnd st gameId game winnerId leftScore rightScore
  end.

(** ** Message router and event loop *)

(** What the [message] callback of a connection closes over. *)
Record Conn := mkConn {
  c_userId : Z;
  c_username : string;
  c_socket : Handle
}.

Definition onMessage (st : State) (c : Conn) (message : ClientMsg)
    (gen : string) (now : Z) : State * list Effect :=
  match message with
  | MPing => (st, [Send (c_socket c) Pong])
  | MGameInvite to_user_id =>
      handleGameInvite st (c_userId c) (c_username c) to_user_id gen now
  | MInviteAccept invite_id => handleInviteAccept st (c_userId c) invite_id
  | MInviteDecline invite_id => handleInviteDecline st (c_userId c) invite_id
  | MPaddleUpdate game_id paddle_y =>
      relayPaddleUpdate st (c_userId c) game_id paddle_y
  | MGameState game_id state => relayGameState st (c_userId c) game_id state
  | MGameEnd game_id winner_id left_score right_score =>
      handleGameEnd st (c_userId c) game_id winner_id left_score right_score
  | MOther => (st, [])
  end.

(** The [chat:message] subscription. *)
Definition onChatMessage (st : State) (to from : Z) (content : string)
    (messageId : Z) : State * list Effect :=
  (st, sendToUser st to (NewMessage from content messageId)).

(** One task of the event loop.  [Resume k] lets the [k]-th suspended
    handler continue, [TimerFire k] runs the [k]-th pending timer; both
    do nothing when there is no such entry. *)
Inductive Event :=
| Connect (userId : Z)
| Close (userId : Z) (socket : Handle)
| Frame (c : Conn) (message : ClientMsg) (gen : string) (now : Z)
| Resume (k : nat) (reply : Reply) (gen : string)
| TimerFire (k : nat)
| ChatMessage (to from : Z) (content : string) (messageId : Z).

Definition resume (st : State) (k : nat) (reply : Reply) (gen : string)
    : State * list Effect :=
  match suspended st !! k with
  | None => (st, [])
  | Some frame =>
      let st1 := with_suspended (delete k) st in
      match frame with
      | AwaitCreate acceptingUserId _ invite =>
          handleInviteAccept_resumed st1 acceptingUserId invite reply gen
      | AwaitUpdate gameId game winnerId leftScore rightScore =>
          handleGameEnd_resumed st1 gameId game winnerId leftScore rightScore
            reply
      end
  end.

Definition fireTimer (st : State) (k : nat) : State * list Effect :=
  match timers st !! k with
  | None => (st, [])
  | Some tm => expireInvite (with_timers (delete k) st) tm
  end.

Definition connect (st : State) (userId : Z) : State :=
  let st1 := register userId (nextSocket st) st in
  mkState (clients st1) (activeInvites st1) (activeGames st1) (timers st1)
    (suspended st1) (S (nextSocket st1)).

Definition step (st : State) (ev : Event) : State * list Effect :=
  match ev with
  | Connect userId => (connect st userId, [])
  | Close userId socket => (unregister userId socket st, [])
  | Frame c message gen now => onMessage st c message gen now
  | Resume k reply gen => resume st k reply gen
  | TimerFire k => fireTimer st k
  | ChatMessage to from content messageId =>
      onChatMessage st to from content messageId
  end.

Fixpoint run (st : State) (evs : list Event) : State * list Effect :=
  match evs with
  | [] => (st, [])
  | ev :: rest =>
      let '(st1, out1) := step st ev in
      let '(st2, out2) := run st1 rest in
      (st2, out1 ++ out2)
  end.

(** The states the service can be in. *)
Definition reachable (st : State) : Prop := ∃ evs, (run init evs).1 = st.

(** ** Invariants *)

(** Every socket is registered under one user only, sockets are numbered
    below the allocation counter, and no user has an empty entry. *)
Definition registry_wf (st : State) : Prop :=
  (∀ (u1 u2 : Z) (h : Handle),
     h ∈ handles st u1 → h ∈ handles st u2 → u1 = u2)
  ∧ (∀ (u : Z) (h : Handle), h ∈ handles st u → (h < nextSocket st)%nat)
  ∧ (∀ u : Z, clients st !! u ≠ Some []).

(** An accept that awaits the gateway was made by another user than the
    inviter. *)
Definition frame_distinct (k : Suspended) : Prop :=
  match k with
  | AwaitCreate acceptingUserId _ invite => fromUserId invite ≠ acceptingUserId
  | AwaitUpdate _ _ _ _ _ => True
  end.

(** Inviter and invitee differ in every stored invite, inviter and
    acceptor in every accept awaiting the gateway, host and guest in
    every live session. *)
Definition distinct_parties (st : State) : Prop :=
  map_Forall (λ _ invite, fromUserId invite ≠ toUserId invite)
    (activeInvites st)
  ∧ Forall frame_distinct (suspended st)
  ∧ map_Forall (λ _ game, hostId game ≠ guestId game) (activeGames st).

(** Every live session is linked to a match record. *)
Definition sessions_linked (st : State) : Prop :=
  map_Forall (λ _ game, is_Some (truthyId (dbGameId game))) (activeGames st).

(** ** Observers of a run *)

(** A [game_invite] frame whose target is its own sender. *)
Definition is_self_invite (ev : Event) : bool :=
  match ev with
  | Frame c (MGameInvite to_user_id) _ _ =>
      bool_decide (to_user_id = c_userId c)
  | _ => false
  end.

(** A gateway reply that returns row 0. *)
Definition returns_row_zero (ev : Event) : bool :=
  match ev with
  | Resume _ (Returned row) _ => bool_decide (row = 0)
  | _ => false
  end.

(** The invite id is in the table. *)
Definition present (inviteId : string) (st : State) : bool :=
  bool_decide (is_Some (activeInvites st !! inviteId)).

(** The event takes the invite out of the table. *)
Definition leaves (inviteId : string) (st : State) (ev : Event) : bool :=
  present inviteId st && negb (present inviteId (step st ev).1).

(** A [game_invite] frame for which [generateId()] yields [inviteId]. *)
Definition regenerates (inviteId : string) (ev : Event) : bool :=
  match ev with
  | Frame _ (MGameInvite _) gen _ => bool_decide (gen = inviteId)
  | _ => false
  end.

(** A suspended [handleInviteAccept] of the invite. *)
Definition accept_of (inviteId : string) (k : Suspended) : bool :=
  match k with
  | AwaitCreate _ i _ => bool_decide (i = inviteId)
  | AwaitUpdate _ _ _ _ _ => false
  end.

(** How many accepts of the invite await the gateway. *)
Definition awaiting (inviteId : string) (st : State) : nat :=
  length (List.filter (accept_of inviteId) (suspended st)).

(** The event inserts a session on behalf of the invite: it resumes an
    accept of that invite with the row the gateway returned. *)
Definition opens (inviteId : string) (st : State) (ev : Event) : bool :=
  match ev with
  | Resume k (Returned _) _ =>
      match suspended st !! k with
      | Some frame => accept_of inviteId frame
      | None => false
      end
  | _ => false
  end.

(** How many events of a run satisfy [p] in the state they occur in. *)
Fixpoint count_along (p : State → Event → bool) (st : State)
    (evs : list Event) : nat :=
  match evs with
  | [] => 0%nat
  | ev :: rest =>
      (Nat.b2n (p st ev) + count_along p (step st ev).1 rest)%nat
  end.

(** ** Concrete scenes *)

(** A concrete scene used by the examples below: users 1 and 2 are
    connected on sockets 0 and 1, and user 1 has invited user 2. *)
Definition ann : Conn := mkConn 1 "ann" 0%nat.
Definition bob : Conn := mkConn 2 "bob" 1%nat.
Definition invited : State :=
  (run init [Connect 1; Connect 2; Frame ann (MGameInvite 2) "i1" 100]).1.
Definition invite1 : Invite := mkInvite "i1" 1 "ann" 2 100.

(** The scene after user 2 has accepted and the gateway returned row 7:
    session "g1" with host 1 and guest 2. *)
Definition playing : State :=
  (run invited [Frame bob (MInviteAccept "i1") "-" 0;
                Resume 0 (Returned 7) "g1"]).1.
Definition game1 : Game := mkGame "g1" 1 2 (Some 7).

(** User 1, connected on socket 0, invites themself and accepts: the
    session "g1" has user 1 as host and as guest. *)
Definition selfplay : State :=
  (run init [Connect 1; Frame ann (MGameInvite 1) "i1" 100;
             Frame ann (MInviteAccept "i1") "-" 0;
             Resume 0 (Returned 7) "g1"]).1.

(** User 1 has opened a second connection while playing. *)
Definition playing_two_tabs : State := (run playing [Connect 1]).1.

(** After the invite of the scene: the invitee accepts, accepts again,
    declines, the timer fires, and the gateway returns the row. *)
Definition accept_then_retries : list Event :=
  [Frame bob (MInviteAccept "i1") "-" 0;
   Frame bob (MInviteAccept "i1") "-" 0;
   Frame bob (MInviteDecline "i1") "-" 0;
   TimerFire 0;
   Resume 0 (Returned 7) "g1"].

(** In the scene where the session is open and the invite's timer still
    pending: the timer fires and the invitee accepts once more. *)
Definition expiry_after_accept : list Event :=
  [TimerFire 0; Frame bob (MInviteAccept "i1") "-" 0].

(** ** Further invariants and observers of the event loop *)

(** No socket is listed twice in a user's set. *)
Definition registry_nodup (st : State) : Prop :=
  ∀ u : Z, NoDup (handles st u).

(** A frame that arrived on socket [h]. *)
Definition from_socket (h : Handle) (ev : Event) : bool :=
  match ev with
  | Frame c _ _ _ => bool_decide (c_socket c = h)
  | _ => false
  end.

(** Socket [h] has been allocated and is in no user's set. *)
Definition retired (h : Handle) (st : State) : Prop :=
  (h < nextSocket st)%nat ∧ ∀ u : Z, h ∉ handles st u.

(** Every stored invite has its expiry timer pending. *)
Definition timers_cover (st : State) : Prop :=
  ∀ (k : string) (invite : Invite),
    activeInvites st !! k = Some invite →
    mkTimer k (fromUserId invite) 60000 ∈ timers st.

(** A suspended accept is by the invitee of the invite it holds, taken
    from the table under the invite's id; a suspended end holds the
    session it found under the id. *)
Definition frame_consistent (f : Suspended) : Prop :=
  match f with
  | AwaitCreate acceptingUserId inviteId invite =>
      toUserId invite = acceptingUserId ∧ i_id invite = inviteId
  | AwaitUpdate gameId game _ _ _ => g_id game = gameId
  end.

(** Invites and sessions are stored under the id they carry, and every
    session has the id of a match record. *)
Definition tables_consistent (st : State) : Prop :=
  map_Forall (λ k invite, i_id invite = k) (activeInvites st)
  ∧ map_Forall (λ k game, g_id game = k ∧ is_Some (dbGameId game))
      (activeGames st)
  ∧ Forall frame_consistent (suspended st).

(** Keep-alive and relay traffic: ping, paddle and state frames, frames
    of a type without a case, and chat notifications. *)
Definition is_traffic (ev : Event) : bool :=
  match ev with
  | Frame _ MPing _ _ => true
  | Frame _ (MPaddleUpdate _ _) _ _ => true
  | Frame _ (MGameState _ _) _ _ => true
  | Frame _ MOther _ _ => true
  | ChatMessage _ _ _ _ => true
  | _ => false
  end.

(** ** Chat history routes ([chatRoutes])

    The REST handlers of the chat service that sit beside the socket
    handler: the grouping loop of [GET /conversations] and the check of
    [POST /messages/:userId].  A JavaScript string is the list of its
    UTF-16 code units. *)

Module Chat.

Definition jsstring := list N.

(** The columns of a user row that the message query includes. *)
Record User := mkUser {
  id : Z;
  username : jsstring;
  displayName : jsstring;
  avatarUrl : option jsstring
}.

(** A message row with its included [sender] and [receiver]. *)
Record Message := mkMessage {
  msg_id : Z;
  senderId : Z;
  receiverId : Z;
  content : jsstring;
  read : bool;
  sentAt : Z;
  sender : User;
  receiver : User
}.

Record LastMessage := mkLastMessage {
  lm_content : jsstring;
  sent_at : Z;
  is_mine : bool
}.

(** A value of [conversationsMap]; [user] holds the partner's [id],
    [username], [displayName] and [avatarUrl] under the keys [id],
    [username], [display_name] and [avatar_url]. *)
Record Conversation := mkConversation {
  user : User;
  last_message : LastMessage;
  unread_count : Z
}.

(** A [Map<number, any>]: entries in insertion order, one per key. *)
Definition JsMap := list (Z * Conversation).

(** [Map.prototype.get]. *)
Fixpoint map_get (k : Z) (m : JsMap) : option Conversation :=
  match m with
  | [] => None
  | (k', v) :: rest => if decide (k' = k) then Some v else map_get k rest
  end.

(** [Map.prototype.has]. *)
Definition map_has (k : Z) (m : JsMap) : bool :=
  bool_decide (is_Some (map_get k m)).

(** [Map.prototype.set]: a present key keeps its place, a new one goes
    to the end. *)
Fixpoint map_set (k : Z) (v : Conversation) (m : JsMap) : JsMap :=
  match m with
  | [] => [(k, v)]
  | (k', v') :: rest =>
      if decide (k' = k) then (k, v) :: rest
      else (k', v') :: map_set k v rest
  end.

(** In-place update of the object stored under [k]. *)
Fixpoint map_update (f : Conversation → Conversation) (k : Z) (m : JsMap)
    : JsMap :=
  match m with
  | [] => []
  | (k', v) :: rest =>
      if decide (k' = k) then (k', f v) :: rest
      else (k', v) :: map_update f k rest
  end.

Definition partnerId (userId : Z) (msg : Message) : Z :=
  if bool_decide (senderId msg = userId) then receiverId msg
  else senderId msg.

Definition partner (userId : Z) (msg : Message) : User :=
  if bool_decide (senderId msg = userId) then receiver msg else sender msg.

(** [msg.receiverId === user.id && !msg.read]. *)
Definition unread_for (userId : Z) (msg : Message) : bool :=
  bool_decide (receiverId msg = userId) && negb (read msg).

Definition bump (c : Conversation) : Conversation :=
  mkConversation (user c) (last_message c) (unread_count c + 1).

(** The entry a message opens for its partner. *)
Definition opening (userId : Z) (msg : Message) : Conversation :=
  mkConversation (partner userId msg)
    (mkLastMessage (content msg) (sentAt msg)
       (bool_decide (senderId msg = userId)))
    0.

(** One round of the loop [for (const msg of messages)]. *)
Definition visit (userId : Z) (m : JsMap) (msg : Message) : JsMap :=
  let m1 :=
    if negb (map_has (partnerId userId msg) m)
    then map_set (partnerId userId msg) (opening userId msg) m
    else m in
  if unread_for userId msg
  then map_update bump (partnerId userId msg) m1
  else m1.

Definition conversationsMap (userId : Z) (messages : list Message) : JsMap :=
  foldl (visit userId) [] messages.

(** [Array.from(conversationsMap.values())]. *)
Definition conversations (userId : Z) (messages : list Message)
    : list Conversation :=
  (conversationsMap userId messages).*2.

(** The messages exchanged with partner [p], in the order of the list. *)
Definition thread (userId p : Z) (messages : list Message) : list Message :=
  filter (λ msg, partnerId userId msg = p) messages.

(** How many messages of the list are unread and addressed to the user. *)
Definition unread_total (userId : Z) (messages : list Message) : Z :=
  Z.of_nat (length (filter (λ msg, unread_for userId msg = true) messages)).

(** The sum of the [unread_count]s of a list of conversations. *)
Definition unread_sum (cs : list Conversation) : Z :=
  foldr (λ c acc, unread_count c + acc) 0 cs.

(** What the conversation with partner [p] should be, read off the
    list: opened by the first message of the thread, counting the unread
    messages of the thread. *)
Definition entry_of (userId p : Z) (messages : list Message)
    : option Conversation :=
  match thread userId p messages with
  | [] => None
  | first :: _ =>
      Some (mkConversation (partner userId first)
              (mkLastMessage (content first) (sentAt first)
                 (bool_decide (senderId first = userId)))
              (unread_total userId (thread userId p messages)))
  end.

(** White space and line terminators of ECMAScript, which
    [String.prototype.trim] strips. *)
Definition isWhiteSpace (c : N) : bool :=
  (existsb (N.eqb c)
     [9; 10; 11; 12; 13; 32; 160; 5760; 8232; 8233; 8239; 8287; 12288;
      65279]%N
   || ((8192 <=? c) && (c <=? 8202))%N)%bool.

Fixpoint trimStart (s : jsstring) : jsstring :=
  match s with
  | [] => []
  | c :: rest => if isWhiteSpace c then trimStart rest else s
  end.

Definition trimEnd (s : jsstring) : jsstring :=
  reverse (trimStart (reverse s)).

Definition trim (s : jsstring) : jsstring := trimEnd (trimStart s).

(** What [POST /messages/:userId] does with a body: it answers with an
    error status, or asks the gateway to create a row. *)
Inductive PostOutcome :=
| Rejected (code : Z) (error : string)
| Created (senderId0 receiverId0 : Z) (content0 : jsstring).

(** [content] is [None] when the body has no such field. *)
Definition postMessage (userId targetId : Z) (content0 : option jsstring)
    : PostOutcome :=
  match content0 with
  | None => Rejected 400 "Message cannot be empty"
  | Some s =>
      if bool_decide (s = []) || bool_decide (length (trim s) = 0%nat)
      then Rejected 400 "Message cannot be empty"
      else Created userId targetId (trim s)
  end.

(** Two users and a page of messages of user 1, newest first. *)
Definition amy : User := mkUser 1 [97; 109; 121]%N [65]%N None.
Definition ben : User := mkUser 2 [98; 101; 110]%N [66]%N None.
Definition cat : User := mkUser 3 [99; 97; 116]%N [67]%N None.
Definition inbox : list Message :=
  [mkMessage 14 2 1 [104; 105]%N false 40 ben amy;
   mkMessage 13 1 3 [111; 107]%N true 30 amy cat;
   mkMessage 12 2 1 [121; 111]%N false 20 ben amy;
   mkMessage 11 3 1 [104; 101; 121]%N true 10 cat amy].

End Chat.

(** ** Further scenes *)

(** In the scene with the open session, the guest's socket 1 closes;
    then the host relays state and a paddle move, ends the game, and the
    gateway answers. *)
Definition after_guest_left : list Event :=
  [Frame ann (MGameState "g1" JNull) "-" 0;
   Frame ann (MPaddleUpdate "g1" 5) "-" 0;
   Frame ann (MGameEnd "g1" 1 11 7) "-" 0;
   Resume 0 (Returned 7) "-"].

(** Traffic of the guest, of an outsider and of the chat bus on the open
    session of the scene. *)
Definition relay_traffic : list Event :=
  [Frame bob (MGameState "g1" JNull) "-" 0;
   Frame bob (MPaddleUpdate "g1" 9) "-" 0;
   Frame (mkConn 3 "eve" 5%nat) (MPaddleUpdate "g1" 1) "-" 0;
   Frame ann MPing "-" 0;
   Frame ann MOther "-" 0;
   ChatMessage 2 1 "hi" 4].

(** A user who takes no part in the session of the scene. *)
Definition eve : Conn := mkConn 3 "eve" 5%nat.

(** The run that leads to the scene with the open session. *)
Definition playing_trace : list Event :=
  [Connect 1; Connect 2; Frame ann (MGameInvite 2) "i1" 100;
   Frame bob (MInviteAccept "i1") "-" 0; Resume 0 (Returned 7) "g1"].

(** ** Basic facts about the registry and the setters *)

Lemma sendToUser_handles (st : State) (userId : Z) (message : Envelope) :
  sendToUser st userId message
  = (λ client, Send client message) <$> handles st userId.
Proof.
  unfold sendToUser, handles.
  by destruct (clients st !! userId).
Qed.

Lemma isOnline_false_handles (st : State) (userId : Z) :
  isOnline st userId = false → handles st userId = [].
Proof.
  unfold isOnline, handles. intros H.
  apply bool_decide_eq_false in H.
  destruct (clients st !! userId) eqn:E; [|done].
  exfalso. apply H. by eexists.
Qed.

Lemma elem_of_sendToUser (st : State) (userId : Z) (message : Envelope)
    (client : Handle) (m : Envelope) :
  Send client m ∈ sendToUser st userId message →
  client ∈ handles st userId ∧ m = message.
Proof.
  rewrite sendToUser_handles. intros H.
  apply list_elem_of_fmap in H as (h & Heq & Hin).
  by inversion Heq; subst.
Qed.

Lemma run_cons (st : State) (ev : Event) (rest : list Event) :
  run st (ev :: rest)
  = ((run (step st ev).1 rest).1, (step st ev).2 ++ (run (step st ev).1 rest).2).
Proof.
  simpl. destruct (step st ev) as [st1 out1]. simpl.
  by destruct (run st1 rest).
Qed.

Lemma run_app (evs1 evs2 : list Event) (st : State) :
  (run st (evs1 ++ evs2)).1 = (run (run st evs1).1 evs2).1.
Proof.
  revert st. induction evs1 as [|ev rest IH]; intros st; [done|].
  rewrite <- app_comm_cons, !run_cons. simpl. apply IH.
Qed.

Lemma reachable_init : reachable init.
Proof. by exists []. Qed.

Lemma reachable_run (st : State) (evs : list Event) :
  reachable st → reachable (run st evs).1.
Proof.
  intros [evs0 <-]. exists (evs0 ++ evs). apply run_app.
Qed.

(** ** Invite creation *)

(** C8. Creating an invite for a target without an entry in [clients]
    sends [game_invite_error] "User is not online" to every live handle
    of the inviter and to nobody else, and leaves the whole state (invite
    table and pending timers included) as it was; the target has no
    handle that could receive anything.  For an online target the invite
    is stored under the generated id, one 60000 ms timer is scheduled,
    every handle of the invitee gets [game_invite] and every handle of
    the inviter gets [game_invite_sent]. *)
Theorem invite_offline_rejected_online_stored (st : State) (from : Z)
    (name : string) (to : Z) (inviteId : string) (now : Z) :
  (isOnline st to = false →
     handleGameInvite st from name to inviteId now
     = (st, (λ h, Send h (GameInviteError "User is not online"))
              <$> handles st from)
     ∧ handles st to = []) ∧
  (isOnline st to = true →
     let st' := (handleGameInvite st from name to inviteId now).1 in
     activeInvites st'
     = <[inviteId := mkInvite inviteId from name to now]> (activeInvites st)
     ∧ activeInvites st' !! inviteId
       = Some (mkInvite inviteId from name to now)
     ∧ timers st' = timers st ++ [mkTimer inviteId from 60000]
     ∧ clients st' = clients st
     ∧ activeGames st' = activeGames st
     ∧ suspended st' = suspended st
     ∧ (handleGameInvite st from name to inviteId now).2
       = ((λ h, Send h (GameInviteMsg inviteId from name now))
            <$> handles st to)
         ++ ((λ h, Send h (GameInviteSent inviteId to)) <$> handles st from)).
Proof.
  split; intros Hon; unfold handleGameInvite; rewrite Hon; simpl.
  - split; [by rewrite sendToUser_handles | by apply isOnline_false_handles].
  - rewrite lookup_insert_eq, !sendToUser_handles. by repeat split.
Qed.

Lemma invite_offline_rejected_online_stored_witness :
  handleGameInvite invited 1 "ann" 3 "i2" 200
  = (invited, [Send 0%nat (GameInviteError "User is not online")])
  ∧ (handleGameInvite playing 1 "ann" 2 "i2" 200).2
    = [Send 1%nat (GameInviteMsg "i2" 1 "ann" 200);
       Send 0%nat (GameInviteSent "i2" 2)].
Proof.
  split.
  - apply (invite_offline_rejected_online_stored invited 1 "ann" 3 "i2" 200).
    reflexivity.
  - apply (invite_offline_rejected_online_stored playing 1 "ann" 2 "i2" 200).
    reflexivity.
Defined.

(** ** Accepting an invite *)

(** C1. Accepting an invite that is in the table and addressed to the
    acceptor removes it and asks the gateway for a match record with
    player1 = inviter, player2 = acceptor and mode "online"; once the
    gateway has returned the row, whatever the state then is, a session
    with host = inviter and guest = acceptor is stored under the
    generated id and both parties are sent [game_invite_accepted] with
    that id, [is_host] true to the inviter's handles and false to the
    acceptor's.  The last conjunct runs both halves through the event
    loop without anything in between. *)
Theorem accept_opens_session (st : State) (acceptor : Z) (inviteId : string)
    (invite : Invite) :
  activeInvites st !! inviteId = Some invite →
  toUserId invite = acceptor →
  handleInviteAccept st acceptor inviteId
  = (with_suspended (λ ks, ks ++ [AwaitCreate acceptor inviteId invite])
       (with_activeInvites (delete inviteId) st),
     [DbCreate (fromUserId invite) acceptor "online"])
  ∧ activeInvites (handleInviteAccept st acceptor inviteId).1 !! inviteId
    = None
  ∧ (∀ (st2 : State) (row : Z) (gameId : string),
       let r := handleInviteAccept_resumed st2 acceptor invite (Returned row)
                  gameId in
       activeGames r.1 !! gameId
       = Some (mkGame gameId (fromUserId invite) acceptor (Some row))
       ∧ r.1 = with_activeGames
                 (<[gameId := mkGame gameId (fromUserId invite) acceptor
                                (Some row)]>) st2
       ∧ r.2 = ((λ h, Send h (GameInviteAccepted gameId row acceptor true))
                  <$> handles st2 (fromUserId invite))
               ++ ((λ h, Send h (GameInviteAccepted gameId row
                                   (fromUserId invite) false))
                     <$> handles st2 acceptor))
  ∧ (∀ (c : Conn) (gen : string) (now row : Z) (gameId : string),
       c_userId c = acceptor →
       run st [Frame c (MInviteAccept inviteId) gen now;
               Resume (length (suspended st)) (Returned row) gameId]
       = (with_activeGames
            (<[gameId := mkGame gameId (fromUserId invite) acceptor
                           (Some row)]>)
            (with_activeInvites (delete inviteId) st),
          [DbCreate (fromUserId invite) acceptor "online"]
          ++ ((λ h, Send h (GameInviteAccepted gameId row acceptor true))
                <$> handles st (fromUserId invite))
          ++ ((λ h, Send h (GameInviteAccepted gameId row
                              (fromUserId invite) false))
                <$> handles st acceptor))).
Proof.
  intros Hin Hto.
  assert (Hbegin : handleInviteAccept st acceptor inviteId
    = (with_suspended (λ ks, ks ++ [AwaitCreate acceptor inviteId invite])
         (with_activeInvites (delete inviteId) st),
       [DbCreate (fromUserId invite) acceptor "online"])).
  { unfold handleInviteAccept. rewrite Hin.
    rewrite bool_decide_eq_false_2; [done | by intros []]. }
  split; [exact Hbegin|]. split.
  { rewrite Hbegin. simpl. apply lookup_delete_eq. }
  split.
  - intros st2 row gameId. simpl.
    rewrite lookup_insert_eq, !sendToUser_handles. by repeat split.
  - intros c gen now row gameId Hc. simpl. rewrite Hc, Hbegin.
    unfold resume. simpl.
    rewrite lookup_app_r by lia. rewrite Nat.sub_diag. simpl.
    rewrite !sendToUser_handles, app_nil_r.
    f_equal. unfold with_activeGames, with_suspended, with_activeInvites.
    simpl. f_equal.
    rewrite delete_middle. apply app_nil_r.
Qed.

Lemma accept_opens_session_witness :
  run invited [Frame bob (MInviteAccept "i1") "-" 0;
               Resume 0 (Returned 7) "g1"]
  = (with_activeGames (<["g1"%string := mkGame "g1" 1 2 (Some 7)]>)
       (with_activeInvites (delete "i1"%string) invited),
     [DbCreate 1 2 "online";
      Send 0%nat (GameInviteAccepted "g1" 7 2 true);
      Send 1%nat (GameInviteAccepted "g1" 7 1 false)]).
Proof.
  pose proof (accept_opens_session invited 2 "i1" invite1) as H.
  destruct H as (_ & _ & _ & H); [vm_compute; reflexivity | reflexivity |].
  apply (H bob "-" 0 7 "g1"%string). reflexivity.
Defined.

(** C6, as amended. When the gateway rejects the [create] call of an
    accept, the removal of the invite (done before the call) is not
    undone, but the session is inserted only after the call has returned:
    the session table is the same at the suspension point and after the
    rejection, nothing is sent, and the only effect is the [create]
    request itself. *)
Theorem accept_throw_keeps_sessions (st : State) (acceptor : Z)
    (inviteId : string) (invite : Invite) :
  activeInvites st !! inviteId = Some invite →
  toUserId invite = acceptor →
  activeGames (handleInviteAccept st acceptor inviteId).1 = activeGames st
  ∧ activeInvites (handleInviteAccept st acceptor inviteId).1 !! inviteId
    = None
  ∧ (∀ (st2 : State) (gen : string),
       handleInviteAccept_resumed st2 acceptor invite Threw gen = (st2, []))
  ∧ (∀ (c : Conn) (gen : string) (now : Z) (gen' : string),
       c_userId c = acceptor →
       run st [Frame c (MInviteAccept inviteId) gen now;
               Resume (length (suspended st)) Threw gen']
       = (with_activeInvites (delete inviteId) st,
          [DbCreate (fromUserId invite) acceptor "online"])).
Proof.
  intros Hin Hto.
  assert (Hbegin : handleInviteAccept st acceptor inviteId
    = (with_suspended (λ ks, ks ++ [AwaitCreate acceptor inviteId invite])
         (with_activeInvites (delete inviteId) st),
       [DbCreate (fromUserId invite) acceptor "online"])).
  { unfold handleInviteAccept. rewrite Hin.
    rewrite bool_decide_eq_false_2; [done | by intros []]. }
  rewrite Hbegin. simpl. repeat split.
  - apply lookup_delete_eq.
  - intros c gen now gen' Hc. rewrite Hc, Hbegin.
    unfold resume. simpl.
    rewrite lookup_app_r by lia. rewrite Nat.sub_diag. simpl.
    f_equal. unfold with_suspended, with_activeInvites. simpl. f_equal.
    rewrite delete_middle. apply app_nil_r.
Qed.

Lemma accept_throw_keeps_sessions_witness :
  activeGames (handleInviteAccept invited 2 "i1").1 = activeGames invited
  ∧ activeInvites (handleInviteAccept invited 2 "i1").1 !! "i1"%string = None
  ∧ (∀ (st2 : State) (gen : string),
       handleInviteAccept_resumed st2 2 invite1 Threw gen = (st2, []))
  ∧ (∀ (c : Conn) (gen : string) (now : Z) (gen' : string),
       c_userId c = 2 →
       run invited [Frame c (MInviteAccept "i1") gen now;
                    Resume (length (suspended invited)) Threw gen']
       = (with_activeInvites (delete "i1"%string) invited,
          [DbCreate (fromUserId invite1) 2 "online"])).
Proof.
  apply (accept_throw_keeps_sessions invited 2 "i1" invite1);
    vm_compute; reflexivity.
Defined.

(** C6 as stated fails: in the scene above, when user 2 accepts and the
    gateway rejects the call, no session is in the table at the moment of
    the call, and none is there afterwards. *)
Lemma accept_throw_no_session_in_memory :
  (¬ ∃ gameId : string,
       is_Some (activeGames (handleInviteAccept invited 2 "i1").1 !! gameId))
  ∧ (¬ ∃ gameId : string,
         is_Some (activeGames
                    (run invited [Frame bob (MInviteAccept "i1") "-" 0;
                                  Resume 0 Threw "g1"]).1 !! gameId))
  ∧ activeInvites
      (run invited [Frame bob (MInviteAccept "i1") "-" 0;
                    Resume 0 Threw "g1"]).1 !! "i1"%string = None.
Proof.
  assert (H1 : activeGames (handleInviteAccept invited 2 "i1").1 = ∅)
    by (vm_compute; reflexivity).
  assert (H2 : activeGames
                 (run invited [Frame bob (MInviteAccept "i1") "-" 0;
                               Resume 0 Threw "g1"]).1 = ∅)
    by (vm_compute; reflexivity).
  rewrite H1, H2. repeat split.
  - intros [g [x Hx]]. by rewrite lookup_empty in Hx.
  - intros [g [x Hx]]. by rewrite lookup_empty in Hx.
Qed.

(** ** Ending a session *)

Lemma handleGameEnd_linked (st : State) (sender : Z) (gameId : string)
    (winner left right : Z) (game : Game) (d : Z) :
  activeGames st !! gameId = Some game →
  truthyId (dbGameId game) = Some d →
  handleGameEnd st sender gameId winner left right
  = (with_suspended
       (λ ks, ks ++ [AwaitUpdate gameId game winner left right]) st,
     [DbUpdate d left right winner]).
Proof. intros Hg Hd. unfold handleGameEnd. by rewrite Hg, Hd. Qed.

Lemma handleGameEnd_unlinked (st : State) (sender : Z) (gameId : string)
    (winner left right : Z) (game : Game) :
  activeGames st !! gameId = Some game →
  truthyId (dbGameId game) = None →
  handleGameEnd st sender gameId winner left right
  = (with_activeGames (delete gameId) st,
     ((λ h, Send h (GameEnded gameId winner left right))
        <$> handles st (hostId game))
     ++ ((λ h, Send h (GameEnded gameId winner left right))
           <$> handles st (guestId game))).
Proof.
  intros Hg Hd. unfold handleGameEnd. rewrite Hg, Hd.
  unfold finishGameEnd. by rewrite !sendToUser_handles.
Qed.

(** A [game_end] frame on a linked session followed at once by the
    gateway's reply. *)
Lemma game_end_then_reply (st : State) (c : Conn) (gameId : string)
    (winner left right : Z) (game : Game) (d : Z) (gen gen' : string)
    (now : Z) (reply : Reply) :
  activeGames st !! gameId = Some game →
  truthyId (dbGameId game) = Some d →
  run st [Frame c (MGameEnd gameId winner left right) gen now;
          Resume (length (suspended st)) reply gen']
  = match reply with
    | Returned _ =>
        (with_activeGames (delete gameId) st,
         [DbUpdate d left right winner]
         ++ ((λ h, Send h (GameEnded gameId winner left right))
               <$> handles st (hostId game))
         ++ ((λ h, Send h (GameEnded gameId winner left right))
               <$> handles st (guestId game)))
    | Threw => (st, [DbUpdate d left right winner])
    end.
Proof.
  intros Hg Hd. simpl.
  rewrite (handleGameEnd_linked st (c_userId c) gameId winner left right
             game d Hg Hd).
  unfold resume. simpl.
  rewrite lookup_app_r by lia. rewrite Nat.sub_diag. simpl.
  destruct reply as [row|]; simpl.
  - unfold finishGameEnd. rewrite !sendToUser_handles, app_nil_r.
    f_equal. unfold with_activeGames, with_suspended. simpl. f_equal.
    rewrite delete_middle. apply app_nil_r.
  - f_equal. destruct st as [cl inv gm ts ks ns].
    unfold with_suspended. simpl. f_equal.
    rewrite delete_middle. apply app_nil_r.
Qed.

(** C4, as amended. [handleGameEnd] on an id that is not in
    [activeGames] changes nothing and sends nothing.  On a live session
    linked to a match record (a truthy [dbGameId]) it asks the gateway to
    store the given left score, right score and winner on that record.
    When the gateway has returned, it sends one and the same [game_ended]
    envelope to the handles of the host and of the guest and deletes the
    session, after which paddle relay, state relay and end on that id are
    no-ops.  When the gateway rejects the update, nothing is sent and the
    session stays in the table as it was.  A session without a truthy
    [dbGameId] is finished at once, without a gateway call. *)
Theorem game_end_finalizes (st : State) (sender : Z) (gameId : string)
    (winner left right : Z) :
  (activeGames st !! gameId = None →
     handleGameEnd st sender gameId winner left right = (st, [])) ∧
  (∀ (game : Game) (d : Z),
     activeGames st !! gameId = Some game →
     truthyId (dbGameId game) = Some d →
     handleGameEnd st sender gameId winner left right
     = (with_suspended
          (λ ks, ks ++ [AwaitUpdate gameId game winner left right]) st,
        [DbUpdate d left right winner])
     ∧ (∀ (st2 : State) (row : Z),
          let r := handleGameEnd_resumed st2 gameId game winner left right
                     (Returned row) in
          r.1 = with_activeGames (delete gameId) st2
          ∧ r.2 = ((λ h, Send h (GameEnded gameId winner left right))
                     <$> handles st2 (hostId game))
                  ++ ((λ h, Send h (GameEnded gameId winner left right))
                        <$> handles st2 (guestId game))
          ∧ activeGames r.1 !! gameId = None
          ∧ (∀ (u y : Z), relayPaddleUpdate r.1 u gameId y = (r.1, []))
          ∧ (∀ (u : Z) (s : Json), relayGameState r.1 u gameId s = (r.1, []))
          ∧ (∀ (u w l' r' : Z), handleGameEnd r.1 u gameId w l' r' = (r.1, [])))
     ∧ (∀ (c : Conn) (gen : string) (now row : Z) (gen' : string),
          c_userId c = sender →
          run st [Frame c (MGameEnd gameId winner left right) gen now;
                  Resume (length (suspended st)) (Returned row) gen']
          = (with_activeGames (delete gameId) st,
             [DbUpdate d left right winner]
             ++ ((λ h, Send h (GameEnded gameId winner left right))
                   <$> handles st (hostId game))
             ++ ((λ h, Send h (GameEnded gameId winner left right))
                   <$> handles st (guestId game))))
     ∧ (∀ st2 : State,
          handleGameEnd_resumed st2 gameId game winner left right Threw
          = (st2, []))
     ∧ (∀ (c : Conn) (gen : string) (now : Z) (gen' : string),
          c_userId c = sender →
          run st [Frame c (MGameEnd gameId winner left right) gen now;
                  Resume (length (suspended st)) Threw gen']
          = (st, [DbUpdate d left right winner])
          ∧ activeGames
              (run st [Frame c (MGameEnd gameId winner left right) gen now;
                       Resume (length (suspended st)) Threw gen']).1
            !! gameId = Some game)) ∧
  (∀ (game : Game),
     activeGames st !! gameId = Some game →
     truthyId (dbGameId game) = None →
     handleGameEnd st sender gameId winner left right
     = (with_activeGames (delete gameId) st,
        ((λ h, Send h (GameEnded gameId winner left right))
           <$> handles st (hostId game))
        ++ ((λ h, Send h (GameEnded gameId winner left right))
              <$> handles st (guestId game)))).
Proof.
  split; [|split].
  - intros Hnone. unfold handleGameEnd. by rewrite Hnone.
  - intros game d Hg Hd.
    split; [by apply handleGameEnd_linked|]. split; [|split; [|split]].
    + intros st2 row. simpl. unfold finishGameEnd.
      rewrite !sendToUser_handles. simpl.
      assert (Hgone : delete gameId (activeGames st2) !! gameId = None)
        by apply lookup_delete_eq.
      repeat split; try done.
      * intros u y. unfold relayPaddleUpdate. simpl. by rewrite Hgone.
      * intros u s. unfold relayGameState. simpl. by rewrite Hgone.
      * intros u w l' r'. unfold handleGameEnd. simpl. by rewrite Hgone.
    + intros c gen now row gen' _.
      apply (game_end_then_reply st c gameId winner left right game d gen
               gen' now (Returned row) Hg Hd).
    + done.
    + intros c gen now gen' _.
      rewrite (game_end_then_reply st c gameId winner left right game d gen
                 gen' now Threw Hg Hd).
      done.
  - intros game Hg Hd. by apply handleGameEnd_unlinked.
Qed.

Lemma game_end_finalizes_witness :
  handleGameEnd playing 1 "nope" 1 11 7 = (playing, [])
  ∧ run playing [Frame ann (MGameEnd "g1" 1 11 7) "-" 0;
                 Resume 0 (Returned 7) "-"]
    = (with_activeGames (delete "g1"%string) playing,
       [DbUpdate 7 11 7 1;
        Send 0%nat (GameEnded "g1" 1 11 7);
        Send 1%nat (GameEnded "g1" 1 11 7)])
  ∧ run playing [Frame ann (MGameEnd "g1" 1 11 7) "-" 0;
                 Resume 0 Threw "-"]
    = (playing, [DbUpdate 7 11 7 1])
  ∧ handleGameEnd
      (with_activeGames (<["g0"%string := mkGame "g0" 1 2 None]>) playing)
      1 "g0" 1 11 7
    = (with_activeGames (delete "g0"%string)
         (with_activeGames (<["g0"%string := mkGame "g0" 1 2 None]>)
            playing),
       [Send 0%nat (GameEnded "g0" 1 11 7);
        Send 1%nat (GameEnded "g0" 1 11 7)]).
Proof.
  pose proof (game_end_finalizes playing 1 "g1" 1 11 7) as (_ & H & _).
  destruct (H game1 7) as (_ & _ & Hret & _ & Hthrew);
    [vm_compute; reflexivity | reflexivity |].
  split; [|split; [|split]].
  - apply (game_end_finalizes playing 1 "nope" 1 11 7). vm_compute.
    reflexivity.
  - apply (Hret ann "-" 0 7 "-"%string). reflexivity.
  - apply (Hthrew ann "-" 0 "-"%string). reflexivity.
  - pose proof (game_end_finalizes
      (with_activeGames (<["g0"%string := mkGame "g0" 1 2 None]>) playing)
      1 "g0" 1 11 7) as (_ & _ & H0).
    apply (H0 (mkGame "g0" 1 2 None)); vm_compute; reflexivity.
Defined.

(** C4 as stated fails: in the scene with the open session "g1" the host
    sends [game_end] and the gateway rejects the update; the session is
    still in the table afterwards and nothing has been sent to anyone. *)
Lemma game_end_rejected_update_keeps_session :
  ¬ (∀ (st : State) (c : Conn) (gameId : string) (winner left right : Z)
       (game : Game) (reply : Reply) (gen gen' : string) (now : Z),
       activeGames st !! gameId = Some game →
       let r := run st [Frame c (MGameEnd gameId winner left right) gen now;
                        Resume (length (suspended st)) reply gen'] in
       activeGames r.1 !! gameId = None
       ∧ ∀ h : Handle,
           h ∈ handles st (hostId game) →
           Send h (GameEnded gameId winner left right) ∈ r.2).
Proof.
  intros H.
  destruct (H playing ann "g1"%string 1 11 7 game1 Threw "-"%string
              "-"%string 0) as [Hgone _]; [vm_compute; reflexivity|].
  vm_compute in Hgone. discriminate.
Qed.

(** C9. What [handleGameEnd] does is independent of who sent the frame
    and of who is named as winner.  For a live session, whoever the
    sending connection is (host, guest or a user outside the session) and
    whatever the winner id is, the same [game_end] payload gives the same
    result as from any other connection, after every continuation of the
    event loop, and that result is the full effect: the update of the
    session's match record with the given scores and winner is requested,
    and when the gateway has returned, host and guest are sent
    [game_ended] with those values and the session is deleted (when it
    rejects, the session stays, again for every sender alike).  No
    hypothesis relates the sender or the winner to the session's host or
    guest: the handler makes no such check. *)
Theorem game_end_ignores_sender (st : State) (c c' : Conn)
    (gameId : string) (winner left right : Z) (game : Game)
    (gen gen' : string) (now now' : Z) :
  activeGames st !! gameId = Some game →
  (∀ rest : list Event,
     run st (Frame c (MGameEnd gameId winner left right) gen now :: rest)
     = run st (Frame c' (MGameEnd gameId winner left right) gen' now'
               :: rest))
  ∧ (∀ d : Z,
       truthyId (dbGameId game) = Some d →
       handleGameEnd st (c_userId c) gameId winner left right
       = (with_suspended
            (λ ks, ks ++ [AwaitUpdate gameId game winner left right]) st,
          [DbUpdate d left right winner])
       ∧ (∀ (row : Z) (g2 : string),
            run st [Frame c (MGameEnd gameId winner left right) gen now;
                    Resume (length (suspended st)) (Returned row) g2]
            = (with_activeGames (delete gameId) st,
               [DbUpdate d left right winner]
               ++ ((λ h, Send h (GameEnded gameId winner left right))
                     <$> handles st (hostId game))
               ++ ((λ h, Send h (GameEnded gameId winner left right))
                     <$> handles st (guestId game))))
       ∧ (∀ g2 : string,
            run st [Frame c (MGameEnd gameId winner left right) gen now;
                    Resume (length (suspended st)) Threw g2]
            = (st, [DbUpdate d left right winner])))
  ∧ (truthyId (dbGameId game) = None →
     handleGameEnd st (c_userId c) gameId winner left right
     = (with_activeGames (delete gameId) st,
        ((λ h, Send h (GameEnded gameId winner left right))
           <$> handles st (hostId game))
        ++ ((λ h, Send h (GameEnded gameId winner left right))
              <$> handles st (guestId game)))).
Proof.
  intros Hg. split; [|split].
  - intros rest. reflexivity.
  - intros d Hd. split; [by apply handleGameEnd_linked|]. split.
    + intros row g2.
      apply (game_end_then_reply st c gameId winner left right game d gen
               g2 now (Returned row) Hg Hd).
    + intros g2.
      apply (game_end_then_reply st c gameId winner left right game d gen
               g2 now Threw Hg Hd).
  - intros Hd. by apply handleGameEnd_unlinked.
Qed.

Lemma game_end_ignores_sender_witness :
  run playing [Frame eve (MGameEnd "g1" 99 11 7) "-" 0;
               Resume 0 (Returned 7) "-"]
  = (with_activeGames (delete "g1"%string) playing,
     [DbUpdate 7 11 7 99;
      Send 0%nat (GameEnded "g1" 99 11 7);
      Send 1%nat (GameEnded "g1" 99 11 7)])
  ∧ run playing [Frame eve (MGameEnd "g1" 99 11 7) "-" 0;
                 Resume 0 (Returned 7) "-"]
    = run playing [Frame ann (MGameEnd "g1" 99 11 7) "-" 0;
                   Resume 0 (Returned 7) "-"].
Proof.
  destruct (game_end_ignores_sender playing eve ann "g1" 99 11 7 game1
              "-" "-" 0 0) as (Hsame & Hfull & _); [vm_compute; reflexivity|].
  split.
  - destruct (Hfull 7) as (_ & Hret & _); [reflexivity|].
    apply (Hret 7 "-"%string).
  - apply Hsame.
Defined.

(** Every session of a run is linked to a match record when the gateway
    never numbers a row 0, so the update of [handleGameEnd] is issued for
    every live session. *)
Lemma sessions_linked_step (st : State) (ev : Event) :
  returns_row_zero ev = false →
  sessions_linked st → sessions_linked (step st ev).1.
Proof.
  unfold sessions_linked. intros Hrow Hl.
  destruct ev as [u|u h|c m gen now|k reply gen|k|]; simpl; try done.
  - unfold unregister. by repeat case_match.
  - destruct m; simpl; try done;
      unfold handleGameInvite, handleInviteAccept, handleInviteDecline,
        relayPaddleUpdate, relayGameState, handleGameEnd, finishGameEnd;
      repeat case_match; simpl; try done; by apply map_Forall_delete.
  - unfold resume, handleInviteAccept_resumed, handleGameEnd_resumed,
      finishGameEnd.
    destruct (suspended st !! k) as [[a i invite|i game w l r]|];
      destruct reply as [row|]; simpl in *; try done.
    + apply map_Forall_insert_2; [|done]. simpl.
      apply bool_decide_eq_false in Hrow.
      rewrite bool_decide_eq_false_2 by done. by eexists.
    + by apply map_Forall_delete.
  - unfold fireTimer, expireInvite. by repeat case_match.
Qed.

Lemma sessions_linked_run (evs : list Event) :
  Forall (λ ev, returns_row_zero ev = false) evs →
  sessions_linked (run init evs).1.
Proof.
  assert (H0 : sessions_linked init) by apply map_Forall_empty.
  revert H0. generalize init.
  intros st H0 Hevs. revert st H0.
  induction Hevs as [|ev rest Hev _ IH]; intros st H0; [done|].
  rewrite run_cons. simpl. apply IH. by apply sessions_linked_step.
Qed.

(** ** Paddle relay *)

(** C10. On a live session, a paddle update from a user who is neither
    its host nor its guest is not dropped: it is sent to every live
    handle of the host, the state staying as it is. *)
Theorem paddle_from_outsider_reaches_host (st : State) (sender : Z)
    (gameId : string) (paddleY : Z) (game : Game) :
  activeGames st !! gameId = Some game →
  sender ≠ hostId game →
  sender ≠ guestId game →
  relayPaddleUpdate st sender gameId paddleY
  = (st, (λ h, Send h (GamePaddleUpdate gameId paddleY))
           <$> handles st (hostId game)).
Proof.
  intros Hg Hh _. unfold relayPaddleUpdate. rewrite Hg.
  rewrite bool_decide_eq_false_2 by congruence.
  by rewrite sendToUser_handles.
Qed.

Lemma paddle_from_outsider_reaches_host_witness :
  relayPaddleUpdate playing 3 "g1" 42
  = (playing, [Send 0%nat (GamePaddleUpdate "g1" 42)]).
Proof.
  apply (paddle_from_outsider_reaches_host playing 3 "g1" 42 game1);
    [vm_compute; reflexivity | discriminate | discriminate].
Defined.

(** ** The registry invariant *)

Lemma handles_connect (st : State) (userId u : Z) :
  handles (connect st userId) u
  = if decide (u = userId) then set_add (nextSocket st) (handles st userId)
    else handles st u.
Proof.
  unfold handles, connect, register. simpl.
  destruct (decide (u = userId)) as [->|Hne].
  - by rewrite lookup_insert_eq.
  - by rewrite lookup_insert_ne.
Qed.

Lemma handles_unregister (st : State) (userId : Z) (socket : Handle) (u : Z) :
  handles (unregister userId socket st) u
  = if decide (u = userId) then set_delete socket (handles st userId)
    else handles st u.
Proof.
  unfold handles, unregister.
  destruct (clients st !! userId) as [uc|] eqn:E; simpl.
  - destruct (decide (set_delete socket uc = [])) as [Hnil|Hnil]; simpl;
      destruct (decide (u = userId)) as [->|Hne].
    + by rewrite lookup_delete_eq, Hnil.
    + by rewrite lookup_delete_ne.
    + by rewrite lookup_insert_eq.
    + by rewrite lookup_insert_ne.
  - destruct (decide (u = userId)) as [->|Hne]; [|done].
    by rewrite E.
Qed.

Lemma elem_of_set_add (h x : Handle) (s : list Handle) :
  x ∈ set_add h s ↔ x ∈ s ∨ x = h.
Proof.
  unfold set_add. destruct (decide (h ∈ s)).
  - split; [by left | by intros [?| ->]].
  - rewrite elem_of_app, list_elem_of_singleton. tauto.
Qed.

Lemma elem_of_set_delete (h x : Handle) (s : list Handle) :
  x ∈ set_delete h s ↔ x ∈ s ∧ x ≠ h.
Proof. unfold set_delete. rewrite list_elem_of_filter. tauto. Qed.

Lemma registry_wf_init : registry_wf init.
Proof.
  repeat split.
  - intros u1 u2 h H. unfold handles in H. simpl in H.
    rewrite lookup_empty in H. by apply elem_of_nil in H.
  - intros u h H. unfold handles in H. simpl in H.
    rewrite lookup_empty in H. by apply elem_of_nil in H.
  - intros u. simpl. by rewrite lookup_empty.
Qed.

Lemma registry_wf_connect (st : State) (userId : Z) :
  registry_wf st → registry_wf (connect st userId).
Proof.
  intros (Hdisj & Hlt & Hne). repeat split.
  - intros u1 u2 h. rewrite !handles_connect.
    destruct (decide (u1 = userId)) as [->|H1],
             (decide (u2 = userId)) as [->|H2]; try done.
    + rewrite elem_of_set_add. intros [Hin| ->] Hin2.
      * by apply (Hdisj _ _ h).
      * apply Hlt in Hin2. lia.
    + rewrite elem_of_set_add. intros Hin1 [Hin| ->].
      * by apply (Hdisj _ _ h).
      * apply Hlt in Hin1. lia.
    + apply Hdisj.
  - intros u h. rewrite handles_connect. simpl.
    destruct (decide (u = userId)) as [->|H1].
    + rewrite elem_of_set_add. intros [Hin| ->]; [|lia].
      apply Hlt in Hin. lia.
    + intros Hin. apply Hlt in Hin. lia.
  - intros u. unfold connect, register. simpl.
    destruct (decide (u = userId)) as [->|H1].
    + rewrite lookup_insert_eq. intros [= Heq].
      assert (Hin : nextSocket st ∈ set_add (nextSocket st)
                      (default [] (clients st !! userId)))
        by (apply elem_of_set_add; by right).
      rewrite Heq in Hin. by apply elem_of_nil in Hin.
    + rewrite lookup_insert_ne by done. apply Hne.
Qed.

Lemma registry_wf_unregister (st : State) (userId : Z) (socket : Handle) :
  registry_wf st → registry_wf (unregister userId socket st).
Proof.
  intros (Hdisj & Hlt & Hne). repeat split.
  - intros u1 u2 h. rewrite !handles_unregister.
    destruct (decide (u1 = userId)) as [->|H1],
             (decide (u2 = userId)) as [->|H2]; try done;
      rewrite ?elem_of_set_delete; intros; apply (Hdisj _ _ h); tauto.
  - intros u h. rewrite handles_unregister.
    assert (nextSocket (unregister userId socket st) = nextSocket st) as ->.
    { unfold unregister. repeat case_match; done. }
    destruct (decide (u = userId)) as [->|H1];
      rewrite ?elem_of_set_delete; intros H; eapply Hlt;
      first [apply H | apply (proj1 H)].
  - intros u. unfold unregister.
    destruct (clients st !! userId) as [uc|] eqn:E; [|apply Hne].
    destruct (decide (set_delete socket uc = [])) as [Hnil|Hnil]; simpl.
    + destruct (decide (u = userId)) as [->|H1].
      * by rewrite lookup_delete_eq.
      * rewrite lookup_delete_ne by done. apply Hne.
    + destruct (decide (u = userId)) as [->|H1].
      * rewrite lookup_insert_eq. congruence.
      * rewrite lookup_insert_ne by done. apply Hne.
Qed.

(** Only [Connect] and [Close] touch the registry. *)
Lemma onMessage_registry (st : State) (c : Conn) (message : ClientMsg)
    (gen : string) (now : Z) :
  clients (onMessage st c message gen now).1 = clients st
  ∧ nextSocket (onMessage st c message gen now).1 = nextSocket st.
Proof.
  destruct message; simpl;
    unfold handleGameInvite, handleInviteAccept, handleInviteDecline,
      relayPaddleUpdate, relayGameState, handleGameEnd, finishGameEnd;
    repeat case_match; done.
Qed.

Lemma resume_registry (st : State) (k : nat) (reply : Reply) (gen : string) :
  clients (resume st k reply gen).1 = clients st
  ∧ nextSocket (resume st k reply gen).1 = nextSocket st.
Proof.
  unfold resume, handleInviteAccept_resumed, handleGameEnd_resumed,
    finishGameEnd.
  repeat case_match; done.
Qed.

Lemma fireTimer_registry (st : State) (k : nat) :
  clients (fireTimer st k).1 = clients st
  ∧ nextSocket (fireTimer st k).1 = nextSocket st.
Proof. unfold fireTimer, expireInvite. repeat case_match; done. Qed.

Lemma registry_wf_ext (st st' : State) :
  clients st' = clients st → nextSocket st' = nextSocket st →
  registry_wf st → registry_wf st'.
Proof.
  unfold registry_wf, handles. intros -> ->. done.
Qed.

Lemma registry_wf_step (st : State) (ev : Event) :
  registry_wf st → registry_wf (step st ev).1.
Proof.
  intros Hwf. destruct ev; simpl.
  - by apply registry_wf_connect.
  - by apply registry_wf_unregister.
  - destruct (onMessage_registry st c message gen now).
    by apply (registry_wf_ext st).
  - destruct (resume_registry st k reply gen).
    by apply (registry_wf_ext st).
  - destruct (fireTimer_registry st k).
    by apply (registry_wf_ext st).
  - done.
Qed.

Lemma registry_wf_run (evs : list Event) (st : State) :
  registry_wf st → registry_wf (run st evs).1.
Proof.
  revert st. induction evs as [|ev rest IH]; intros st Hwf; [done|].
  rewrite run_cons. simpl. apply IH. by apply registry_wf_step.
Qed.

Lemma reachable_registry_wf (st : State) : reachable st → registry_wf st.
Proof.
  intros [evs <-]. apply registry_wf_run, registry_wf_init.
Qed.

(** Under the invariant, being online is having a live handle. *)
Lemma isOnline_handles (st : State) (userId : Z) :
  registry_wf st → (isOnline st userId = true ↔ handles st userId ≠ []).
Proof.
  intros (_ & _ & Hne). unfold isOnline, handles.
  rewrite bool_decide_eq_true. specialize (Hne userId).
  destruct (clients st !! userId) as [l|]; simpl.
  - split; [congruence | by eexists].
  - split; [by intros [? ?] | done].
Qed.

(** ** Relaying *)

Lemma not_elem_of_sends (st : State) (u target : Z) (message : Envelope) :
  registry_wf st → u ≠ target →
  ∀ (h : Handle) (m : Envelope),
    h ∈ handles st u → Send h m ∉ sendToUser st target message.
Proof.
  intros (Hdisj & _) Hne h m Hin Hsend.
  apply elem_of_sendToUser in Hsend as [Hin' _].
  apply Hne. by apply (Hdisj _ _ h).
Qed.

(** C3, as amended. [relayGameState] on an unknown session, or from a
    caller who is not the session's host, sends nothing and leaves the
    state as it is.  From the host, [game_state] goes to every live
    handle of the guest and to those only; when the guest is another
    user than the host, no handle of the host receives anything. *)
Theorem state_relay_host_to_guest (st : State) (sender : Z)
    (gameId : string) (state : Json) :
  (activeGames st !! gameId = None →
     relayGameState st sender gameId state = (st, [])) ∧
  (∀ game : Game,
     activeGames st !! gameId = Some game → hostId game ≠ sender →
     relayGameState st sender gameId state = (st, [])) ∧
  (∀ game : Game,
     activeGames st !! gameId = Some game → hostId game = sender →
     relayGameState st sender gameId state
     = (st, (λ h, Send h (GameStateMsg gameId state))
              <$> handles st (guestId game))
     ∧ (registry_wf st → guestId game ≠ hostId game →
        ∀ (h : Handle) (m : Envelope),
          h ∈ handles st (hostId game) →
          Send h m ∉ (relayGameState st sender gameId state).2)).
Proof.
  unfold relayGameState. split; [|split].
  - by intros ->.
  - intros game -> Hne. by rewrite bool_decide_eq_true_2.
  - intros game -> Heq. rewrite bool_decide_eq_false_2 by (by intros []).
    split; [by rewrite sendToUser_handles|].
    intros Hwf Hne h m Hin. simpl.
    by apply (not_elem_of_sends st (hostId game)).
Qed.

Lemma state_relay_host_to_guest_witness :
  relayGameState playing 3 "nope" JNull = (playing, [])
  ∧ relayGameState playing 2 "g1" JNull = (playing, [])
  ∧ relayGameState playing 1 "g1" JNull
    = (playing, [Send 1%nat (GameStateMsg "g1" JNull)])
  ∧ Send 0%nat (GameStateMsg "g1" JNull)
    ∉ (relayGameState playing 1 "g1" JNull).2.
Proof.
  split; [|split; [|split]].
  - apply (state_relay_host_to_guest playing 3 "nope" JNull).
    vm_compute. reflexivity.
  - pose proof (state_relay_host_to_guest playing 2 "g1" JNull)
      as (_ & H & _).
    apply (H game1); [vm_compute; reflexivity | discriminate].
  - pose proof (state_relay_host_to_guest playing 1 "g1" JNull)
      as (_ & _ & H).
    apply (H game1); [vm_compute; reflexivity | reflexivity].
  - pose proof (state_relay_host_to_guest playing 1 "g1" JNull)
      as (_ & _ & H).
    destruct (H game1) as [_ Hno]; [vm_compute; reflexivity | reflexivity |].
    apply Hno.
    + apply reachable_registry_wf. do 2 apply reachable_run.
      apply reachable_init.
    + discriminate.
    + vm_compute. apply list_elem_of_here.
Defined.

(** C3 as stated fails on the reachable self-session: the host's state
    frame is delivered to socket 0, which is a connection of the host. *)
Lemma state_relay_reaches_host_of_self_session :
  ¬ (∀ (st : State) (gameId : string) (game : Game) (state : Json)
       (h : Handle) (m : Envelope),
       reachable st →
       activeGames st !! gameId = Some game →
       h ∈ handles st (hostId game) →
       Send h m ∉ (relayGameState st (hostId game) gameId state).2).
Proof.
  intros H.
  apply (H selfplay "g1"%string (mkGame "g1" 1 1 (Some 7)) JNull 0%nat
           (GameStateMsg "g1" JNull)).
  - apply reachable_run, reachable_init.
  - vm_compute. reflexivity.
  - vm_compute. apply list_elem_of_here.
  - vm_compute. apply list_elem_of_here.
Qed.

(** C7, as amended. On a known session [relayPaddleUpdate] sends
    [game_paddle_update] to the live handles of one user and to nobody
    else: the guest when the sender is the host, otherwise the host; so
    the update of a participant goes to the other participant only.
    When host and guest are different users, no handle of the sender
    receives it, however many handles the sender has. *)
Theorem paddle_relay_to_other_side (st : State) (sender : Z)
    (gameId : string) (paddleY : Z) (game : Game) :
  activeGames st !! gameId = Some game →
  (hostId game = sender →
     relayPaddleUpdate st sender gameId paddleY
     = (st, (λ h, Send h (GamePaddleUpdate gameId paddleY))
              <$> handles st (guestId game))) ∧
  (hostId game ≠ sender →
     relayPaddleUpdate st sender gameId paddleY
     = (st, (λ h, Send h (GamePaddleUpdate gameId paddleY))
              <$> handles st (hostId game))) ∧
  (registry_wf st → hostId game ≠ guestId game →
     ∀ (h : Handle) (m : Envelope),
       h ∈ handles st sender →
       Send h m ∉ (relayPaddleUpdate st sender gameId paddleY).2).
Proof.
  intros Hg. unfold relayPaddleUpdate. rewrite Hg. split; [|split].
  - intros Heq. rewrite bool_decide_eq_true_2 by done.
    by rewrite sendToUser_handles.
  - intros Hne. rewrite bool_decide_eq_false_2 by done.
    by rewrite sendToUser_handles.
  - intros Hwf Hne h m Hin. simpl.
    apply (not_elem_of_sends st sender); [done| |done].
    case_bool_decide; congruence.
Qed.

Lemma paddle_relay_to_other_side_witness :
  relayPaddleUpdate playing_two_tabs 1 "g1" 42
  = (playing_two_tabs, [Send 1%nat (GamePaddleUpdate "g1" 42)])
  ∧ relayPaddleUpdate playing_two_tabs 2 "g1" 42
    = (playing_two_tabs, [Send 0%nat (GamePaddleUpdate "g1" 42);
                          Send 2%nat (GamePaddleUpdate "g1" 42)])
  ∧ handles playing_two_tabs 1 = [0%nat; 2%nat]
  ∧ (∀ (h : Handle) (m : Envelope),
       h ∈ handles playing_two_tabs 1 →
       Send h m ∉ (relayPaddleUpdate playing_two_tabs 1 "g1" 42).2).
Proof.
  pose proof (paddle_relay_to_other_side playing_two_tabs 1 "g1" 42 game1)
    as (H1 & _ & H3); [vm_compute; reflexivity|].
  pose proof (paddle_relay_to_other_side playing_two_tabs 2 "g1" 42 game1)
    as (_ & H2 & _); [vm_compute; reflexivity|].
  split; [apply H1; reflexivity|].
  split; [apply H2; discriminate|].
  split; [vm_compute; reflexivity|].
  apply H3; [|discriminate].
  apply reachable_registry_wf. do 3 apply reachable_run.
  apply reachable_init.
Defined.

(** C7 as stated fails on the reachable self-session: user 1's paddle
    update comes back on user 1's own socket. *)
Lemma paddle_relay_echoes_in_self_session :
  ¬ (∀ (st : State) (sender : Z) (gameId : string) (paddleY : Z)
       (h : Handle) (m : Envelope),
       reachable st →
       is_Some (activeGames st !! gameId) →
       h ∈ handles st sender →
       Send h m ∉ (relayPaddleUpdate st sender gameId paddleY).2).
Proof.
  intros H.
  apply (H selfplay 1 "g1"%string 42 0%nat (GamePaddleUpdate "g1" 42)).
  - apply reachable_run, reachable_init.
  - vm_compute. by eexists.
  - vm_compute. apply list_elem_of_here.
  - vm_compute. apply list_elem_of_here.
Qed.

(** ** Who a session binds *)

Lemma distinct_parties_init : distinct_parties init.
Proof.
  repeat split; simpl; try apply map_Forall_empty. constructor.
Qed.

Lemma distinct_parties_onMessage (st : State) (c : Conn)
    (message : ClientMsg) (gen : string) (now : Z) :
  is_self_invite (Frame c message gen now) = false →
  distinct_parties st →
  distinct_parties (onMessage st c message gen now).1.
Proof.
  intros Hself (Hinv & Hsus & Hgames).
  destruct message; simpl in *; try done.
  - (* game_invite *)
    unfold handleGameInvite. case_match; [done|]. simpl.
    repeat split; simpl; try done.
    apply map_Forall_insert_2; [|done]. simpl.
    apply bool_decide_eq_false in Hself. congruence.
  - (* game_invite_accept *)
    unfold handleInviteAccept.
    destruct (activeInvites st !! invite_id) as [invite|] eqn:E; [|done].
    case_bool_decide as Hto; [done|]. simpl.
    repeat split; simpl; try done.
    + by apply map_Forall_delete.
    + apply Forall_app. split; [done|]. constructor; [|constructor].
      simpl. apply Hinv in E. simpl in E.
      assert (toUserId invite = c_userId c)
        by (destruct (decide (toUserId invite = c_userId c)); tauto).
      congruence.
  - (* game_invite_decline *)
    unfold handleInviteDecline.
    destruct (activeInvites st !! invite_id) as [invite|] eqn:E; [|done].
    case_bool_decide; [done|]. simpl.
    repeat split; simpl; try done. by apply map_Forall_delete.
  - unfold relayPaddleUpdate. by case_match.
  - unfold relayGameState. repeat case_match; done.
  - (* game_end *)
    unfold handleGameEnd, finishGameEnd.
    destruct (activeGames st !! game_id) as [game|]; [|done].
    destruct (truthyId (dbGameId game)); simpl.
    + repeat split; simpl; try done.
      apply Forall_app. split; [done|]. by repeat constructor.
    + repeat split; simpl; try done. by apply map_Forall_delete.
Qed.

Lemma distinct_parties_resume (st : State) (k : nat) (reply : Reply)
    (gen : string) :
  distinct_parties st → distinct_parties (resume st k reply gen).1.
Proof.
  intros (Hinv & Hsus & Hgames). unfold resume.
  destruct (suspended st !! k) as [frame|] eqn:E; [|done].
  assert (Hframe : frame_distinct frame).
  { rewrite Forall_forall in Hsus. apply Hsus.
    by apply list_elem_of_lookup_2 in E. }
  assert (Hrest : Forall frame_distinct (delete k (suspended st)))
    by (by apply Forall_delete).
  destruct frame as [u i invite | i game w l r]; destruct reply; simpl;
    unfold finishGameEnd; repeat split; simpl; try done.
  - by apply map_Forall_insert_2.
  - by apply map_Forall_delete.
Qed.

Lemma distinct_parties_fireTimer (st : State) (k : nat) :
  distinct_parties st → distinct_parties (fireTimer st k).1.
Proof.
  intros (Hinv & Hsus & Hgames). unfold fireTimer, expireInvite.
  repeat case_match; repeat split; simpl; try done.
  by apply map_Forall_delete.
Qed.

Lemma distinct_parties_step (st : State) (ev : Event) :
  is_self_invite ev = false →
  distinct_parties st → distinct_parties (step st ev).1.
Proof.
  intros Hself Hd. destruct ev; simpl.
  - done.
  - unfold unregister. destruct Hd as (? & ? & ?). by repeat case_match.
  - by apply distinct_parties_onMessage.
  - by apply distinct_parties_resume.
  - by apply distinct_parties_fireTimer.
  - done.
Qed.

(** C5, as amended. The handlers never compare an invite's target with
    its sender; what holds is that host and guest differ in every live
    session of every run in which no [game_invite] frame names its own
    sender as target (a session's host is the inviter and its guest the
    invitee of the accepted invite). *)
Theorem sessions_bind_distinct_users (evs : list Event) (gameId : string)
    (game : Game) :
  Forall (λ ev, is_self_invite ev = false) evs →
  activeGames (run init evs).1 !! gameId = Some game →
  hostId game ≠ guestId game.
Proof.
  intros Hevs Hg.
  assert (Hd : distinct_parties (run init evs).1).
  { clear Hg. generalize distinct_parties_init. generalize init.
    induction Hevs as [|ev rest Hev _ IH]; intros st Hd; [done|].
    rewrite run_cons. simpl. apply IH. by apply distinct_parties_step. }
  destruct Hd as (_ & _ & Hgames). by apply (Hgames gameId).
Qed.

Lemma sessions_bind_distinct_users_witness :
  hostId game1 ≠ guestId game1.
Proof.
  apply (sessions_bind_distinct_users
           [Connect 1; Connect 2; Frame ann (MGameInvite 2) "i1" 100;
            Frame bob (MInviteAccept "i1") "-" 0;
            Resume 0 (Returned 7) "g1"] "g1" game1).
  - repeat constructor.
  - vm_compute. reflexivity.
Defined.

(** C5 as stated fails: user 1 invites themself and accepts; the session
    that results has user 1 as host and as guest. *)
Lemma self_invite_opens_self_session :
  ¬ (∀ (st : State) (gameId : string) (game : Game),
       reachable st → activeGames st !! gameId = Some game →
       hostId game ≠ guestId game).
Proof.
  intros H.
  apply (H selfplay "g1"%string (mkGame "g1" 1 1 (Some 7))).
  - apply reachable_run, reachable_init.
  - vm_compute. reflexivity.
  - reflexivity.
Qed.

(** ** An invite leaves [Pending] once *)

Lemma present_false (inviteId : string) (st : State) :
  present inviteId st = false ↔ activeInvites st !! inviteId = None.
Proof.
  unfold present. rewrite bool_decide_eq_false, <- eq_None_not_Some. done.
Qed.

Lemma filter_delete_length (p : Suspended → bool) (l : list Suspended)
    (k : nat) (x : Suspended) :
  l !! k = Some x →
  (length (List.filter p (delete k l)) + Nat.b2n (p x))%nat
  = length (List.filter p l).
Proof.
  revert k. induction l as [|y l IH]; intros k Hk; [done|].
  destruct k as [|k]; simpl in *.
  - injection Hk as ->. destruct (p x); simpl; lia.
  - specialize (IH k Hk). destruct (p y); simpl; lia.
Qed.

Lemma filter_snoc_length (p : Suspended → bool) (l : list Suspended)
    (x : Suspended) :
  length (List.filter p (l ++ [x]))
  = (length (List.filter p l) + Nat.b2n (p x))%nat.
Proof.
  rewrite List.filter_app, length_app. simpl. by destruct (p x).
Qed.

(** Without a new invite under the same id, an event either takes the id
    out of the table or leaves its entry as it is. *)
Lemma step_invite_entry (inviteId : string) (st : State) (ev : Event) :
  regenerates inviteId ev = false →
  activeInvites (step st ev).1 !! inviteId = None
  ∨ activeInvites (step st ev).1 !! inviteId = activeInvites st !! inviteId.
Proof.
  intros Hregen. destruct ev as [u|u h|c m gen now|k reply gen|k|]; simpl.
  - by right.
  - right. unfold unregister. by repeat case_match.
  - destruct m; simpl in *; try (by right).
    + unfold handleGameInvite. case_match; [by right|]. simpl.
      right. apply lookup_insert_ne.
      by apply bool_decide_eq_false in Hregen.
    + unfold handleInviteAccept.
      destruct (activeInvites st !! invite_id) eqn:E; [|by right].
      case_bool_decide; [by right|]. simpl.
      destruct (decide (invite_id = inviteId)) as [->|Hne].
      * left. apply lookup_delete_eq.
      * right. by apply lookup_delete_ne.
    + unfold handleInviteDecline.
      destruct (activeInvites st !! invite_id) eqn:E; [|by right].
      case_bool_decide; [by right|]. simpl.
      destruct (decide (invite_id = inviteId)) as [->|Hne].
      * left. apply lookup_delete_eq.
      * right. by apply lookup_delete_ne.
    + right. unfold relayPaddleUpdate. by case_match.
    + right. unfold relayGameState. by repeat case_match.
    + right. unfold handleGameEnd, finishGameEnd. by repeat case_match.
  - right. unfold resume, handleInviteAccept_resumed, handleGameEnd_resumed,
      finishGameEnd. by repeat case_match.
  - unfold fireTimer, expireInvite.
    destruct (timers st !! k) as [tm|]; [|by right].
    case_bool_decide; simpl; [|by right].
    destruct (decide (tm_inviteId tm = inviteId)) as [->|Hne].
    + left. apply lookup_delete_eq.
    + right. by apply lookup_delete_ne.
  - by right.
Qed.

Lemma step_stays_absent (inviteId : string) (st : State) (ev : Event) :
  regenerates inviteId ev = false →
  present inviteId st = false → present inviteId (step st ev).1 = false.
Proof.
  rewrite !present_false. intros Hregen Habs.
  destruct (step_invite_entry inviteId st ev Hregen) as [H|H]; congruence.
Qed.

(** No expiry notice for an id that is not in the table. *)
Lemma step_no_expiry_notice (inviteId : string) (st : State) (ev : Event)
    (h : Handle) :
  present inviteId st = false →
  Send h (GameInviteExpired inviteId) ∉ (step st ev).2.
Proof.
  rewrite present_false. intros Habs Hin.
  destruct ev as [u|u s|c m gen now|k reply gen|k|]; simpl in Hin;
    try (by apply elem_of_nil in Hin).
  - destruct m; simpl in Hin;
      unfold handleGameInvite, handleInviteAccept, handleInviteDecline,
        relayPaddleUpdate, relayGameState, handleGameEnd, finishGameEnd
        in Hin;
      repeat case_match; simpl in Hin;
      repeat (apply elem_of_app in Hin as [Hin|Hin]);
      first [ by apply elem_of_nil in Hin
            | by apply elem_of_sendToUser in Hin as [_ ?]
            | by apply list_elem_of_singleton in Hin ].
  - unfold resume, handleInviteAccept_resumed, handleGameEnd_resumed,
      finishGameEnd in Hin.
    repeat case_match; simpl in Hin;
      repeat (apply elem_of_app in Hin as [Hin|Hin]);
      first [ by apply elem_of_nil in Hin
            | by apply elem_of_sendToUser in Hin as [_ ?] ].
  - unfold fireTimer, expireInvite in Hin.
    destruct (timers st !! k) as [tm|]; [|by apply elem_of_nil in Hin].
    case_bool_decide as Hsome; simpl in Hin;
      [|by apply elem_of_nil in Hin].
    apply elem_of_sendToUser in Hin as [_ [= Heq]].
    simpl in Hsome. rewrite <- Heq, Habs in Hsome. by destruct Hsome.
  - unfold onChatMessage in Hin. simpl in Hin.
    by apply elem_of_sendToUser in Hin as [_ ?].
Qed.

(** The invite, the accepts of it that await the gateway and the sessions
    opened for it add up to one at most. *)
Lemma step_budget (inviteId : string) (st : State) (ev : Event) :
  regenerates inviteId ev = false →
  (Nat.b2n (opens inviteId st ev)
   + Nat.b2n (present inviteId (step st ev).1)
   + awaiting inviteId (step st ev).1
   ≤ Nat.b2n (present inviteId st) + awaiting inviteId st)%nat.
Proof.
  intros Hregen.
  assert (Hpres : (Nat.b2n (present inviteId (step st ev).1)
                   ≤ Nat.b2n (present inviteId st))%nat).
  { destruct (present inviteId st) eqn:E.
    - destruct (present inviteId (step st ev).1); simpl; lia.
    - by rewrite (step_stays_absent inviteId st ev Hregen E). }
  destruct ev as [u|u h|c m gen now|k reply gen|k|]; simpl in *.
  - done.
  - assert (awaiting inviteId (unregister u h st) = awaiting inviteId st)
      as -> by (unfold unregister; by repeat case_match).
    lia.
  - destruct m; simpl in *; try lia.
    + assert (awaiting inviteId
                (handleGameInvite st (c_userId c) (c_username c) to_user_id
                   gen now).1 = awaiting inviteId st) as ->
        by (unfold handleGameInvite; by case_match).
      lia.
    + unfold handleInviteAccept in *.
      destruct (activeInvites st !! invite_id) as [invite|] eqn:E;
        [|simpl in *; lia].
      case_bool_decide; [simpl in *; lia|]. simpl in *.
      unfold awaiting, present in *. simpl in *.
      rewrite filter_snoc_length. simpl.
      destruct (decide (invite_id = inviteId)) as [->|Hne].
      * rewrite lookup_delete_eq, E.
        rewrite bool_decide_eq_false_2 by (by intros [? ?]).
        rewrite !bool_decide_eq_true_2 by (done || by eexists).
        simpl. lia.
      * rewrite (bool_decide_eq_false_2 (invite_id = inviteId)) by done.
        simpl. lia.
    + assert (awaiting inviteId
                (handleInviteDecline st (c_userId c) invite_id).1
              = awaiting inviteId st) as ->
        by (unfold handleInviteDecline; by repeat case_match).
      lia.
    + assert (awaiting inviteId
                (relayPaddleUpdate st (c_userId c) game_id paddle_y).1
              = awaiting inviteId st) as ->
        by (unfold relayPaddleUpdate; by repeat case_match).
      lia.
    + assert (awaiting inviteId
                (relayGameState st (c_userId c) game_id state).1
              = awaiting inviteId st) as ->
        by (unfold relayGameState; by repeat case_match).
      lia.
    + assert (awaiting inviteId
                (handleGameEnd st (c_userId c) game_id winner_id left_score
                   right_score).1 = awaiting inviteId st) as ->.
      { unfold handleGameEnd, finishGameEnd, awaiting.
        repeat case_match; simpl; try done.
        rewrite filter_snoc_length. simpl. lia. }
      lia.
  - unfold resume in *.
    destruct (suspended st !! k) as [frame|] eqn:E;
      [|destruct reply; simpl in *; lia].
    pose proof (filter_delete_length (accept_of inviteId) _ _ _ E) as Hlen.
    unfold awaiting in *.
    destruct frame as [u i invite | i game w l r], reply as [row|];
      simpl in *; lia.
  - assert (awaiting inviteId (fireTimer st k).1 = awaiting inviteId st)
      as -> by (unfold fireTimer, expireInvite; by repeat case_match).
    lia.
  - lia.
Qed.

Lemma run_budget (inviteId : string) (evs : list Event) (st : State) :
  Forall (λ ev, regenerates inviteId ev = false) evs →
  (count_along (leaves inviteId) st evs ≤ Nat.b2n (present inviteId st))%nat
  ∧ (count_along (opens inviteId) st evs
     ≤ Nat.b2n (present inviteId st) + awaiting inviteId st)%nat
  ∧ (present inviteId st = false →
     present inviteId (run st evs).1 = false
     ∧ ∀ h : Handle, Send h (GameInviteExpired inviteId) ∉ (run st evs).2).
Proof.
  intros Hevs. revert st.
  induction Hevs as [|ev rest Hev _ IH]; intros st.
  - simpl. repeat split; try lia; try done. intros h. apply not_elem_of_nil.
  - destruct (IH (step st ev).1) as (IH1 & IH2 & IH3).
    pose proof (step_budget inviteId st ev Hev) as Hb.
    split; [|split].
    + simpl. unfold leaves at 1.
      destruct (present inviteId st) eqn:E; simpl.
      * destruct (present inviteId (step st ev).1); simpl in *; lia.
      * rewrite (step_stays_absent inviteId st ev Hev E) in IH1.
        simpl in IH1. lia.
    + simpl. lia.
    + intros Habs. rewrite run_cons. simpl.
      pose proof (step_stays_absent inviteId st ev Hev Habs) as Habs'.
      destruct (IH3 Habs') as [IH3a IH3b].
      split; [done|]. intros h Hin.
      apply elem_of_app in Hin as [Hin|Hin].
      * by apply (step_no_expiry_notice inviteId st ev h Habs).
      * by apply (IH3b h).
Qed.

(** C2. Let no later [game_invite] be given the same id.  Each of
    acceptance by the invitee, decline by the invitee and the expiry
    callback takes a pending invite out of the table.  Along every run
    at most one event takes the invite out, and, when no accept of it is
    already awaiting the gateway, at most one session is opened for it.
    Once the id is out of the table it stays out, no event takes it out
    again, no session is opened beyond the accepts already awaiting the
    gateway, no [game_invite_expired] for it is sent, and at the end of
    the run an accept only sends the error envelope to the caller and
    suspends nothing, a decline does nothing, and the expiry callback
    does nothing (its timer is consumed). *)
Theorem invite_leaves_pending_once (inviteId : string) (st : State)
    (evs : list Event) :
  Forall (λ ev, regenerates inviteId ev = false) evs →
  (∀ invite : Invite,
     activeInvites st !! inviteId = Some invite →
     present inviteId
       (handleInviteAccept st (toUserId invite) inviteId).1 = false
     ∧ present inviteId
         (handleInviteDecline st (toUserId invite) inviteId).1 = false
     ∧ (∀ tm : Timer, tm_inviteId tm = inviteId →
          present inviteId (expireInvite st tm).1 = false))
  ∧ (count_along (leaves inviteId) st evs ≤ 1)%nat
  ∧ (awaiting inviteId st = 0%nat →
     (count_along (opens inviteId) st evs ≤ 1)%nat)
  ∧ (present inviteId st = false →
     let st' := (run st evs).1 in
     present inviteId st' = false
     ∧ count_along (leaves inviteId) st evs = 0%nat
     ∧ (count_along (opens inviteId) st evs ≤ awaiting inviteId st)%nat
     ∧ (∀ h : Handle, Send h (GameInviteExpired inviteId) ∉ (run st evs).2)
     ∧ (∀ u : Z,
          handleInviteAccept st' u inviteId
          = (st', (λ h, Send h (GameInviteError "Invite not found or expired"))
                    <$> handles st' u))
     ∧ (∀ u : Z, handleInviteDecline st' u inviteId = (st', []))
     ∧ (∀ tm : Timer, tm_inviteId tm = inviteId →
          expireInvite st' tm = (st', []))
     ∧ (∀ (k : nat) (tm : Timer),
          timers st' !! k = Some tm → tm_inviteId tm = inviteId →
          fireTimer st' k = (with_timers (delete k) st', []))).
Proof.
  intros Hevs.
  destruct (run_budget inviteId evs st Hevs) as (Hleaves & Hopens & Habsent).
  split; [|split; [|split]].
  - intros invite Hin. rewrite !present_false. repeat split.
    + unfold handleInviteAccept. rewrite Hin.
      rewrite bool_decide_eq_false_2 by (by intros []). simpl.
      apply lookup_delete_eq.
    + unfold handleInviteDecline. rewrite Hin.
      rewrite bool_decide_eq_false_2 by (by intros []). simpl.
      apply lookup_delete_eq.
    + intros tm <-. rewrite present_false. unfold expireInvite.
      rewrite Hin. rewrite bool_decide_eq_true_2 by (by eexists). simpl.
      apply lookup_delete_eq.
  - destruct (present inviteId st); simpl in Hleaves; lia.
  - intros Hz. destruct (present inviteId st); simpl in Hopens; lia.
  - intros Habs. destruct (Habsent Habs) as [Hend Hnotice].
    rewrite Habs in Hleaves, Hopens. simpl in Hleaves, Hopens.
    split; [done|]. split; [lia|]. split; [lia|]. split; [done|].
    apply present_false in Hend.
    assert (Hexp : ∀ (s : State) (tm : Timer),
              activeInvites s !! inviteId = None →
              tm_inviteId tm = inviteId → expireInvite s tm = (s, [])).
    { intros s tm Hs <-. unfold expireInvite.
      rewrite bool_decide_eq_false_2; [done|].
      rewrite Hs. by intros [? ?]. }
    repeat split.
    + intros u. unfold handleInviteAccept. rewrite Hend.
      by rewrite sendToUser_handles.
    + intros u. unfold handleInviteDecline. by rewrite Hend.
    + intros tm Htm. by apply Hexp.
    + intros k tm Hk Htm. unfold fireTimer. rewrite Hk. by apply Hexp.
Qed.

Lemma invite_leaves_pending_once_witness :
  (count_along (leaves "i1") invited accept_then_retries ≤ 1)%nat
  ∧ (count_along (opens "i1") invited accept_then_retries ≤ 1)%nat
  ∧ present "i1" (run playing expiry_after_accept).1 = false
  ∧ (∀ h : Handle,
       Send h (GameInviteExpired "i1")
       ∉ (run playing expiry_after_accept).2).
Proof.
  destruct (invite_leaves_pending_once "i1" invited accept_then_retries)
    as (_ & H1 & H2 & _); [repeat constructor|].
  destruct (invite_leaves_pending_once "i1" playing expiry_after_accept)
    as (_ & _ & _ & H4); [repeat constructor|].
  destruct H4 as (H5 & _ & _ & H6 & _); [reflexivity|].
  split; [exact H1|]. split; [apply H2; reflexivity|].
  split; [exact H5 | exact H6].
Defined.

(** ** More on the connection registry *)

Lemma NoDup_set_add (h : Handle) (s : list Handle) :
  NoDup s → NoDup (set_add h s).
Proof.
  intros Hnd. unfold set_add. destruct (decide (h ∈ s)); [done|].
  apply NoDup_app. split; [done|]. split.
  - intros x Hx Hx'. apply list_elem_of_singleton in Hx'. by subst.
  - apply NoDup_singleton.
Qed.

Lemma NoDup_set_delete (h : Handle) (s : list Handle) :
  NoDup s → NoDup (set_delete h s).
Proof. intros Hnd. unfold set_delete. by apply NoDup_filter. Qed.

Lemma handles_ext (st st' : State) (u : Z) :
  clients st' = clients st → handles st' u = handles st u.
Proof. unfold handles. by intros ->. Qed.

Lemma step_handles (st : State) (ev : Event) (u : Z) :
  handles (step st ev).1 u
  = match ev with
    | Connect userId =>
        if decide (u = userId)
        then set_add (nextSocket st) (handles st userId) else handles st u
    | Close userId socket =>
        if decide (u = userId)
        then set_delete socket (handles st userId) else handles st u
    | _ => handles st u
    end.
Proof.
  destruct ev as [a|a h|c m gen now|k reply gen|k|]; simpl.
  - apply handles_connect.
  - apply handles_unregister.
  - apply handles_ext, onMessage_registry.
  - apply handles_ext, resume_registry.
  - apply handles_ext, fireTimer_registry.
  - done.
Qed.

Lemma registry_nodup_step (st : State) (ev : Event) :
  registry_nodup st → registry_nodup (step st ev).1.
Proof.
  intros Hnd u. rewrite step_handles.
  destruct ev; try apply Hnd; case_decide; try apply Hnd.
  - apply NoDup_set_add, Hnd.
  - apply NoDup_set_delete, Hnd.
Qed.

Lemma registry_nodup_run (evs : list Event) (st : State) :
  registry_nodup st → registry_nodup (run st evs).1.
Proof.
  revert st. induction evs as [|ev rest IH]; intros st Hnd; [done|].
  rewrite run_cons. simpl. apply IH. by apply registry_nodup_step.
Qed.

(** X1. The registry of every reachable state is well formed: a socket is
    in the set of one user only and listed once there, every registered
    socket has a number below the allocation counter, and a user without
    live sockets has no entry. *)
Theorem reachable_registry_shape (st : State) :
  reachable st →
  (∀ (u1 u2 : Z) (h : Handle),
     h ∈ handles st u1 → h ∈ handles st u2 → u1 = u2)
  ∧ (∀ u : Z, NoDup (handles st u))
  ∧ (∀ (u : Z) (h : Handle), h ∈ handles st u → (h < nextSocket st)%nat)
  ∧ (∀ u : Z, clients st !! u ≠ Some []).
Proof.
  intros Hr.
  destruct (reachable_registry_wf st Hr) as (Hdisj & Hlt & Hne).
  repeat split; try done.
  destruct Hr as [evs <-]. apply registry_nodup_run.
  intros u. unfold handles. simpl. rewrite lookup_empty. constructor.
Qed.

Lemma reachable_registry_shape_witness :
  (∀ (u1 u2 : Z) (h : Handle),
     h ∈ handles playing_two_tabs u1 → h ∈ handles playing_two_tabs u2 →
     u1 = u2)
  ∧ (∀ u : Z, NoDup (handles playing_two_tabs u))
  ∧ (∀ (u : Z) (h : Handle),
       h ∈ handles playing_two_tabs u →
       (h < nextSocket playing_two_tabs)%nat)
  ∧ (∀ u : Z, clients playing_two_tabs !! u ≠ Some []).
Proof.
  apply (reachable_registry_shape playing_two_tabs).
  do 3 apply reachable_run. apply reachable_init.
Defined.

(** X2. In every reachable state [clients.has(u)] holds exactly when user
    [u] has at least one live socket. *)
Theorem online_iff_live_socket (st : State) (u : Z) :
  reachable st →
  (isOnline st u = true ↔ ∃ h : Handle, h ∈ handles st u).
Proof.
  intros Hr. rewrite (isOnline_handles st u (reachable_registry_wf st Hr)).
  destruct (handles st u) as [|h l].
  - split; [done|]. intros [h Hh]. by apply elem_of_nil in Hh.
  - split; [|done]. intros _. exists h. apply list_elem_of_here.
Qed.

Lemma online_iff_live_socket_witness :
  (isOnline playing 2 = true ↔ ∃ h : Handle, h ∈ handles playing 2)
  ∧ (isOnline playing 3 = true ↔ ∃ h : Handle, h ∈ handles playing 3).
Proof.
  split; apply (online_iff_live_socket playing);
    do 2 apply reachable_run; apply reachable_init.
Defined.

Lemma set_delete_add_fresh (h : Handle) (s : list Handle) :
  h ∉ s → set_delete h (set_add h s) = s.
Proof.
  intros Hfresh. unfold set_add, set_delete.
  rewrite decide_False by done.
  rewrite filter_app, filter_cons_False, filter_nil, app_nil_r
    by (by intros ?).
  induction s as [|x s IH]; [done|].
  rewrite not_elem_of_cons in Hfresh. destruct Hfresh as [Hx Hs].
  rewrite filter_cons_True by done. by rewrite IH.
Qed.

(** X3. Opening a connection and closing it again leaves the registry as it
    was: the user's other sockets stay, and a user who had none has no
    entry afterwards.  Only the allocation counter has moved on. *)
Theorem connect_close_restores_registry (st : State) (u : Z) :
  registry_wf st →
  unregister u (nextSocket st) (connect st u)
  = mkState (clients st) (activeInvites st) (activeGames st) (timers st)
      (suspended st) (S (nextSocket st)).
Proof.
  intros (_ & Hlt & Hne).
  assert (Hfresh : nextSocket st ∉ handles st u).
  { intros Hin. apply Hlt in Hin. lia. }
  unfold unregister, connect, register. simpl.
  rewrite lookup_insert_eq. fold (handles st u).
  rewrite set_delete_add_fresh by done.
  destruct (decide (handles st u = [])) as [Hnil|Hnil].
  - unfold with_clients. simpl. f_equal.
    rewrite delete_insert_eq. apply delete_id.
    unfold handles in Hnil. specialize (Hne u).
    destruct (clients st !! u) as [l|]; [|done]. simpl in Hnil. by subst.
  - unfold with_clients. simpl. f_equal.
    rewrite insert_insert_eq. apply insert_id.
    unfold handles in *. destruct (clients st !! u) as [l|]; done.
Qed.

Lemma connect_close_restores_registry_witness :
  clients (unregister 2 (nextSocket playing) (connect playing 2))
  = clients playing
  ∧ clients (unregister 3 (nextSocket playing) (connect playing 3))
    = clients playing.
Proof.
  assert (Hwf : registry_wf playing).
  { apply reachable_registry_wf. do 2 apply reachable_run.
    apply reachable_init. }
  split.
  - by rewrite (connect_close_restores_registry playing 2 Hwf).
  - by rewrite (connect_close_restores_registry playing 3 Hwf).
Defined.

(** Whatever an event sends goes to a socket that is registered when the
    event is handled, or is the pong on the socket the ping came in on. *)
Lemma step_sends_registered (st : State) (ev : Event) (h : Handle)
    (m : Envelope) :
  Send h m ∈ (step st ev).2 →
  (∃ u : Z, h ∈ handles st u) ∨ from_socket h ev = true.
Proof.
  intros Hin.
  destruct ev as [a|a s|c msg gen now|k reply gen|k|to from content mid];
    simpl in Hin; try (by apply elem_of_nil in Hin).
  - destruct msg; simpl in Hin.
    + apply list_elem_of_singleton in Hin. injection Hin as -> _.
      right. simpl. by apply bool_decide_eq_true.
    + left. unfold handleGameInvite in Hin.
      case_match; simpl in Hin;
        repeat (apply elem_of_app in Hin as [Hin|Hin]);
        apply elem_of_sendToUser in Hin as [Hin _]; eauto.
    + left. unfold handleInviteAccept in Hin.
      repeat case_match; simpl in Hin;
        first [ by apply list_elem_of_singleton in Hin
              | apply elem_of_sendToUser in Hin as [Hin _]; eauto ].
    + left. unfold handleInviteDecline in Hin.
      repeat case_match; simpl in Hin;
        first [ by apply elem_of_nil in Hin
              | apply elem_of_sendToUser in Hin as [Hin _]; eauto ].
    + left. unfold relayPaddleUpdate in Hin.
      repeat case_match; simpl in Hin;
        first [ by apply elem_of_nil in Hin
              | apply elem_of_sendToUser in Hin as [Hin _]; eauto ].
    + left. unfold relayGameState in Hin.
      repeat case_match; simpl in Hin;
        first [ by apply elem_of_nil in Hin
              | apply elem_of_sendToUser in Hin as [Hin _]; eauto ].
    + left. unfold handleGameEnd, finishGameEnd in Hin.
      repeat case_match; simpl in Hin;
        repeat (apply elem_of_app in Hin as [Hin|Hin]);
        first [ by apply elem_of_nil in Hin
              | by apply list_elem_of_singleton in Hin
              | apply elem_of_sendToUser in Hin as [Hin _]; eauto ].
    + by apply elem_of_nil in Hin.
  - left. unfold resume, handleInviteAccept_resumed, handleGameEnd_resumed,
      finishGameEnd in Hin.
    repeat case_match; simpl in Hin;
      repeat (apply elem_of_app in Hin as [Hin|Hin]);
      first [ by apply elem_of_nil in Hin
            | apply elem_of_sendToUser in Hin as [Hin _]; eauto ].
  - left. unfold fireTimer, expireInvite in Hin.
    repeat case_match; simpl in Hin;
      first [ by apply elem_of_nil in Hin
            | apply elem_of_sendToUser in Hin as [Hin _]; eauto ].
  - left. unfold onChatMessage in Hin. simpl in Hin.
    apply elem_of_sendToUser in Hin as [Hin _]. eauto.
Qed.

Lemma step_nextSocket (st : State) (ev : Event) :
  (nextSocket st ≤ nextSocket (step st ev).1)%nat.
Proof.
  destruct ev as [a|a s|c msg gen now|k reply gen|k|]; simpl.
  - lia.
  - unfold unregister. repeat case_match; simpl; lia.
  - destruct (onMessage_registry st c msg gen now) as [_ ->]. lia.
  - destruct (resume_registry st k reply gen) as [_ ->]. lia.
  - destruct (fireTimer_registry st k) as [_ ->]. lia.
  - lia.
Qed.

Lemma retired_step (h : Handle) (st : State) (ev : Event) :
  retired h st → retired h (step st ev).1.
Proof.
  intros [Hlt Hout]. split.
  - pose proof (step_nextSocket st ev). lia.
  - intros u. rewrite step_handles.
    destruct ev; try apply Hout; case_decide; try apply Hout.
    + rewrite elem_of_set_add. intros [Hin| ->]; [by apply (Hout userId)|lia].
    + rewrite elem_of_set_delete. intros [Hin _]. by apply (Hout userId).
Qed.

Lemma retired_run_silent (h : Handle) (evs : list Event) (st : State) :
  retired h st →
  Forall (λ ev, from_socket h ev = false) evs →
  ∀ m : Envelope, Send h m ∉ (run st evs).2.
Proof.
  intros Hret Hevs. revert st Hret.
  induction Hevs as [|ev rest Hev _ IH]; intros st Hret m.
  - apply not_elem_of_nil.
  - rewrite run_cons. simpl. intros Hin.
    apply elem_of_app in Hin as [Hin|Hin].
    + apply step_sends_registered in Hin as [[u Hu]|Hfrom].
      * by apply (proj2 Hret u).
      * congruence.
    + by apply (IH (step st ev).1 (retired_step h st ev Hret) m).
Qed.

(** X4. Once a socket has been closed nothing is written to it any more,
    whatever happens afterwards (frames of other connections, gateway
    replies, timers, chat notifications, new connections): the close
    callback takes it out of the registry and no later event puts it
    back. *)
Theorem closed_socket_is_silent (st : State) (u : Z) (h : Handle)
    (evs : list Event) :
  registry_wf st →
  h ∈ handles st u →
  Forall (λ ev, from_socket h ev = false) evs →
  ∀ m : Envelope, Send h m ∉ (run (unregister u h st) evs).2.
Proof.
  intros (Hdisj & Hlt & _) Hin Hevs.
  apply retired_run_silent; [|done]. split.
  - assert (nextSocket (unregister u h st) = nextSocket st) as ->
      by (unfold unregister; by repeat case_match).
    by apply (Hlt u).
  - intros u'. rewrite handles_unregister.
    destruct (decide (u' = u)) as [->|Hne].
    + rewrite elem_of_set_delete. by intros [_ ?].
    + intros Hin'. apply Hne. by apply (Hdisj _ _ h).
Qed.

Lemma closed_socket_is_silent_witness :
  1%nat ∈ handles playing 2
  ∧ ∀ m : Envelope,
      Send 1%nat m ∉ (run (unregister 2 1%nat playing) after_guest_left).2.
Proof.
  assert (Hin : 1%nat ∈ handles playing 2)
    by (vm_compute; apply list_elem_of_here).
  split; [exact Hin|].
  apply (closed_socket_is_silent playing 2 1%nat after_guest_left).
  - apply reachable_registry_wf. do 2 apply reachable_run.
    apply reachable_init.
  - exact Hin.
  - repeat constructor.
Defined.

(** ** Invites and their timers *)

Lemma elem_of_delete_ne {A : Type} (l : list A) (j : nat) (x y : A) :
  x ∈ l → l !! j = Some y → x ≠ y → x ∈ delete j l.
Proof.
  intros Hin Hj Hne.
  rewrite (delete_Permutation l j y Hj) in Hin.
  apply elem_of_cons in Hin as [?|?]; done.
Qed.

Lemma timers_cover_onMessage (st : State) (c : Conn) (msg : ClientMsg)
    (gen : string) (now : Z) :
  timers_cover st → timers_cover (onMessage st c msg gen now).1.
Proof.
  intros Hc k invite. destruct msg; simpl; try apply Hc.
  - unfold handleGameInvite. case_match; [apply Hc|]. simpl.
    destruct (decide (gen = k)) as [->|Hne].
    + rewrite lookup_insert_eq. intros [= <-]. simpl.
      apply elem_of_app. right. apply list_elem_of_here.
    + rewrite lookup_insert_ne by done. intros Hk.
      apply elem_of_app. left. by apply Hc.
  - unfold handleInviteAccept.
    destruct (activeInvites st !! invite_id) eqn:E; [|apply Hc].
    case_bool_decide; [apply Hc|]. simpl.
    intros Hk. apply lookup_delete_Some in Hk as [_ Hk]. by apply Hc.
  - unfold handleInviteDecline.
    destruct (activeInvites st !! invite_id) eqn:E; [|apply Hc].
    case_bool_decide; [apply Hc|]. simpl.
    intros Hk. apply lookup_delete_Some in Hk as [_ Hk]. by apply Hc.
  - unfold relayPaddleUpdate. case_match; apply Hc.
  - unfold relayGameState. repeat case_match; apply Hc.
  - unfold handleGameEnd, finishGameEnd. repeat case_match; apply Hc.
Qed.

Lemma timers_cover_step (st : State) (ev : Event) :
  timers_cover st → timers_cover (step st ev).1.
Proof.
  intros Hc.
  destruct ev as [a|a s|c msg gen now|j reply gen|j|]; simpl; try done.
  - unfold unregister. repeat case_match; apply Hc.
  - by apply timers_cover_onMessage.
  - unfold resume, handleInviteAccept_resumed, handleGameEnd_resumed,
      finishGameEnd. repeat case_match; apply Hc.
  - unfold fireTimer, expireInvite.
    destruct (timers st !! j) as [tm|] eqn:Ej; [|apply Hc].
    case_bool_decide as Hsome; simpl in *; intros k invite Hk; simpl in Hk.
    + apply lookup_delete_Some in Hk as [Hne Hk].
      apply (elem_of_delete_ne _ j _ tm); [by apply Hc|done|].
      intros <-. by apply Hne.
    + apply (elem_of_delete_ne _ j _ tm); [by apply Hc|done|].
      intros <-. simpl in Hsome. apply Hsome. by eexists.
Qed.

Lemma timers_cover_run (evs : list Event) (st : State) :
  timers_cover st → timers_cover (run st evs).1.
Proof.
  revert st. induction evs as [|ev rest IH]; intros st Hc; [done|].
  rewrite run_cons. simpl. apply IH. by apply timers_cover_step.
Qed.

(** X6. No invite stays pending without a way out: in every reachable state
    each stored invite has its 60000 ms timer pending, and when that
    timer fires the invite is removed and every live socket of the
    inviter is sent [game_invite_expired] with the invite's id. *)
Theorem pending_invite_can_expire (st : State) (k : string)
    (invite : Invite) :
  reachable st →
  activeInvites st !! k = Some invite →
  ∃ j : nat,
    timers st !! j = Some (mkTimer k (fromUserId invite) 60000)
    ∧ fireTimer st j
      = (with_activeInvites (delete k) (with_timers (delete j) st),
         (λ h, Send h (GameInviteExpired k))
           <$> handles st (fromUserId invite)).
Proof.
  intros [evs <-] Hk.
  assert (Hc : timers_cover (run init evs).1).
  { apply timers_cover_run. intros k' i' H'. simpl in H'.
    by rewrite lookup_empty in H'. }
  apply Hc in Hk as Htm. apply list_elem_of_lookup in Htm as [j Hj].
  exists j. split; [done|].
  unfold fireTimer, expireInvite. rewrite Hj. simpl.
  rewrite bool_decide_eq_true_2 by (by eexists).
  by rewrite sendToUser_handles.
Qed.

Lemma pending_invite_can_expire_witness :
  ∃ j : nat,
    timers invited !! j = Some (mkTimer "i1" 1 60000)
    ∧ fireTimer invited j
      = (with_activeInvites (delete "i1"%string)
           (with_timers (delete j) invited),
         (λ h, Send h (GameInviteExpired "i1")) <$> handles invited 1).
Proof.
  apply (pending_invite_can_expire invited "i1" invite1).
  - apply reachable_run, reachable_init.
  - vm_compute. reflexivity.
Defined.

(** X7. An invite leaves the table only through its invitee or its timer:
    if an event removes a stored invite, the event is an accept or a
    decline frame for that id sent by the invitee, or the firing of a
    timer set for that id.  Nobody else, the inviter included, can take
    it out. *)
Theorem invite_removed_only_by_invitee_or_timer (st : State) (ev : Event)
    (k : string) (invite : Invite) :
  activeInvites st !! k = Some invite →
  activeInvites (step st ev).1 !! k = None →
  (∃ (c : Conn) (gen : string) (now : Z),
     ev = Frame c (MInviteAccept k) gen now ∧ c_userId c = toUserId invite)
  ∨ (∃ (c : Conn) (gen : string) (now : Z),
       ev = Frame c (MInviteDecline k) gen now
       ∧ c_userId c = toUserId invite)
  ∨ (∃ (j : nat) (tm : Timer),
       ev = TimerFire j ∧ timers st !! j = Some tm ∧ tm_inviteId tm = k).
Proof.
  intros Hk Hgone.
  destruct ev as [a|a s|c msg gen now|j reply gen|j|]; simpl in Hgone.
  - congruence.
  - unfold unregister in Hgone. repeat case_match; simpl in *; congruence.
  - destruct msg; simpl in Hgone; try congruence.
    + unfold handleGameInvite in Hgone.
      case_match; simpl in Hgone; [congruence|].
      apply lookup_insert_None in Hgone as [? _]. congruence.
    + unfold handleInviteAccept in Hgone.
      destruct (activeInvites st !! invite_id) as [i'|] eqn:E;
        [|simpl in *; congruence].
      case_bool_decide as Hto; simpl in Hgone; [congruence|].
      apply lookup_delete_None in Hgone as [->|?]; [|congruence].
      left. exists c, gen, now. split; [done|].
      assert (i' = invite) as -> by congruence.
      destruct (decide (toUserId invite = c_userId c)); [done|tauto].
    + unfold handleInviteDecline in Hgone.
      destruct (activeInvites st !! invite_id) as [i'|] eqn:E;
        [|simpl in *; congruence].
      case_bool_decide as Hto; simpl in Hgone; [congruence|].
      apply lookup_delete_None in Hgone as [->|?]; [|congruence].
      right. left. exists c, gen, now. split; [done|].
      assert (i' = invite) as -> by congruence.
      destruct (decide (toUserId invite = c_userId c)); [done|tauto].
    + unfold relayPaddleUpdate in Hgone.
      repeat case_match; simpl in *; congruence.
    + unfold relayGameState in Hgone.
      repeat case_match; simpl in *; congruence.
    + unfold handleGameEnd, finishGameEnd in Hgone.
      repeat case_match; simpl in *; congruence.
  - unfold resume, handleInviteAccept_resumed, handleGameEnd_resumed,
      finishGameEnd in Hgone.
    repeat case_match; simpl in *; congruence.
  - unfold fireTimer, expireInvite in Hgone.
    destruct (timers st !! j) as [tm|] eqn:Ej; [|simpl in *; congruence].
    case_bool_decide; simpl in Hgone; [|congruence].
    apply lookup_delete_None in Hgone as [Heq|?]; [|congruence].
    right. right. by exists j, tm.
  - congruence.
Qed.

Lemma invite_removed_only_by_invitee_or_timer_witness :
  (∃ (c : Conn) (gen : string) (now : Z),
     Frame bob (MInviteDecline "i1") "-" 0
     = Frame c (MInviteAccept "i1") gen now
     ∧ c_userId c = toUserId invite1)
  ∨ (∃ (c : Conn) (gen : string) (now : Z),
       Frame bob (MInviteDecline "i1") "-" 0
       = Frame c (MInviteDecline "i1") gen now
       ∧ c_userId c = toUserId invite1)
  ∨ (∃ (j : nat) (tm : Timer),
       Frame bob (MInviteDecline "i1") "-" 0 = TimerFire j
       ∧ timers invited !! j = Some tm ∧ tm_inviteId tm = "i1"%string).
Proof.
  apply (invite_removed_only_by_invitee_or_timer invited
           (Frame bob (MInviteDecline "i1") "-" 0) "i1" invite1);
    vm_compute; reflexivity.
Defined.

(** X8. A decline by the invitee removes the invite and tells every live
    socket of the inviter, and nobody else, with [game_invite_declined];
    the invite's timer stays pending and does nothing when it fires
    later.  No session and no gateway call come of it. *)
Theorem decline_then_timer (st : State) (c : Conn) (k : string)
    (invite : Invite) (j : nat) (tm : Timer) (gen : string) (now : Z) :
  activeInvites st !! k = Some invite →
  toUserId invite = c_userId c →
  timers st !! j = Some tm →
  tm_inviteId tm = k →
  run st [Frame c (MInviteDecline k) gen now; TimerFire j]
  = (with_timers (delete j) (with_activeInvites (delete k) st),
     (λ h, Send h (GameInviteDeclined k)) <$> handles st (fromUserId invite)).
Proof.
  intros Hk Hto Hj Htm. simpl.
  unfold handleInviteDecline. rewrite Hk.
  rewrite bool_decide_eq_false_2 by (by intros ?). simpl.
  unfold fireTimer, expireInvite. simpl. rewrite Hj. simpl.
  rewrite Htm, lookup_delete_eq.
  rewrite bool_decide_eq_false_2 by (by intros [? ?]).
  by rewrite sendToUser_handles, app_nil_r.
Qed.

Lemma decline_then_timer_witness :
  run invited [Frame bob (MInviteDecline "i1") "-" 0; TimerFire 0]
  = (with_timers (delete 0%nat)
       (with_activeInvites (delete "i1"%string) invited),
     [Send 0%nat (GameInviteDeclined "i1")]).
Proof.
  apply (decline_then_timer invited bob "i1" invite1 0
           (mkTimer "i1" 1 60000) "-" 0); reflexivity.
Defined.

(** ** Sessions over a run *)

Lemma tables_consistent_onMessage (st : State) (c : Conn) (msg : ClientMsg)
    (gen : string) (now : Z) :
  tables_consistent st → tables_consistent (onMessage st c msg gen now).1.
Proof.
  intros Ht. pose proof Ht as (Hinv & Hgames & Hsus).
  destruct msg; simpl; try done.
  - unfold handleGameInvite. case_match; [done|]. simpl.
    (split; [|split]); simpl; try done. by apply map_Forall_insert_2.
  - unfold handleInviteAccept.
    destruct (activeInvites st !! invite_id) as [invite|] eqn:E; [|done].
    case_bool_decide as Hto; [done|]. simpl.
    (split; [|split]); simpl; try done.
    + by apply map_Forall_delete.
    + apply Forall_app. split; [done|]. constructor; [|constructor].
      simpl. split; [|by apply (Hinv invite_id)].
      destruct (decide (toUserId invite = c_userId c)); [done|tauto].
  - unfold handleInviteDecline.
    destruct (activeInvites st !! invite_id) as [invite|] eqn:E; [|done].
    case_bool_decide; [done|]. simpl.
    (split; [|split]); simpl; try done. by apply map_Forall_delete.
  - unfold relayPaddleUpdate. by case_match.
  - unfold relayGameState. by repeat case_match.
  - unfold handleGameEnd, finishGameEnd.
    destruct (activeGames st !! game_id) as [game|] eqn:E; [|done].
    destruct (truthyId (dbGameId game)); simpl.
    + (split; [|split]); simpl; try done.
      apply Forall_app. split; [done|]. constructor; [|constructor].
      simpl. by apply (Hgames game_id).
    + (split; [|split]); simpl; try done. by apply map_Forall_delete.
Qed.

Lemma tables_consistent_step (st : State) (ev : Event) :
  tables_consistent st → tables_consistent (step st ev).1.
Proof.
  intros Ht.
  destruct ev as [a|a s|c msg gen now|j reply gen|j|]; simpl; try done.
  - unfold unregister. by repeat case_match.
  - by apply tables_consistent_onMessage.
  - pose proof Ht as (Hinv & Hgames & Hsus). unfold resume.
    destruct (suspended st !! j) as [f|] eqn:E; [|done].
    assert (Hrest : Forall frame_consistent (delete j (suspended st)))
      by (by apply Forall_delete).
    destruct f, reply; simpl; unfold finishGameEnd; try done;
      (split; [|split]); simpl; try done.
    + apply map_Forall_insert_2; [|done]. simpl. split; [done|by eexists].
    + by apply map_Forall_delete.
  - pose proof Ht as (Hinv & Hgames & Hsus). unfold fireTimer, expireInvite.
    repeat case_match; try done. (split; [|split]); simpl; try done.
    by apply map_Forall_delete.
Qed.

Lemma tables_consistent_run (evs : list Event) (st : State) :
  tables_consistent st → tables_consistent (run st evs).1.
Proof.
  revert st. induction evs as [|ev rest IH]; intros st Ht; [done|].
  rewrite run_cons. simpl. apply IH. by apply tables_consistent_step.
Qed.

Lemma tables_consistent_init : tables_consistent init.
Proof.
  split; [|split]; simpl; try apply map_Forall_empty. constructor.
Qed.

(** What an event does to the entry of [activeGames] under an id: it
    keeps it, or removes it, or it is the gateway's answer to a suspended
    accept and stores the session made of that accept and the returned
    row. *)
Lemma step_games_entry (st : State) (ev : Event) (k : string) :
  activeGames (step st ev).1 !! k = activeGames st !! k
  ∨ activeGames (step st ev).1 !! k = None
  ∨ ∃ (j : nat) (row u : Z) (i : string) (invite : Invite),
      ev = Resume j (Returned row) k
      ∧ suspended st !! j = Some (AwaitCreate u i invite)
      ∧ activeGames (step st ev).1 !! k
        = Some (mkGame k (fromUserId invite) u (Some row)).
Proof.
  destruct ev as [a|a s|c msg gen now|j reply gen|j|]; simpl.
  - by left.
  - left. unfold unregister. by repeat case_match.
  - destruct msg; simpl; try (by left).
    + left. unfold handleGameInvite. by case_match.
    + left. unfold handleInviteAccept. by repeat case_match.
    + left. unfold handleInviteDecline. by repeat case_match.
    + left. unfold relayPaddleUpdate. by repeat case_match.
    + left. unfold relayGameState. by repeat case_match.
    + unfold handleGameEnd, finishGameEnd.
      destruct (activeGames st !! game_id) as [game|]; [|by left].
      destruct (truthyId (dbGameId game)); simpl; [by left|].
      destruct (decide (game_id = k)) as [->|Hne].
      * right. left. apply lookup_delete_eq.
      * left. by apply lookup_delete_ne.
  - unfold resume.
    destruct (suspended st !! j) as [f|] eqn:E; [|by left].
    destruct f as [u i invite|g0 game0 w l r], reply as [row|]; simpl;
      try (by left).
    + destruct (decide (gen = k)) as [->|Hne].
      * right. right. exists j, row, u, i, invite.
        by rewrite lookup_insert_eq.
      * left. by apply lookup_insert_ne.
    + unfold finishGameEnd. simpl.
      destruct (decide (g0 = k)) as [->|Hne].
      * right. left. apply lookup_delete_eq.
      * left. by apply lookup_delete_ne.
  - left. unfold fireTimer, expireInvite. by repeat case_match.
  - by left.
Qed.

Lemma run_snoc (st : State) (pre : list Event) (ev : Event) :
  (run st (pre ++ [ev])).1 = (step (run st pre).1 ev).1.
Proof. rewrite run_app, run_cons. done. Qed.

(** Every session of a run was put into the table by an event of that
    run. *)
Lemma session_origin (evs : list Event) (k : string) (game : Game) :
  activeGames (run init evs).1 !! k = Some game →
  ∃ (evs1 evs2 : list Event) (j : nat) (row u : Z) (i : string)
    (invite : Invite),
    evs = evs1 ++ Resume j (Returned row) k :: evs2
    ∧ suspended (run init evs1).1 !! j = Some (AwaitCreate u i invite)
    ∧ game = mkGame k (fromUserId invite) u (Some row).
Proof.
  induction evs as [|ev pre IH] using rev_ind; intros Hk.
  - simpl in Hk. by rewrite lookup_empty in Hk.
  - rewrite run_snoc in Hk.
    destruct (step_games_entry (run init pre).1 ev k)
      as [Hsame|[Hnone|(j & row & u & i & invite & -> & Hj & Hnew)]].
    + rewrite Hsame in Hk.
      destruct (IH Hk) as (evs1 & evs2 & j & row & u & i & invite
                           & -> & Hj & ->).
      exists evs1, (evs2 ++ [ev]), j, row, u, i, invite.
      by rewrite <- app_assoc.
    + congruence.
    + exists pre, [], j, row, u, i, invite.
      split; [done|]. split; [done|]. congruence.
Qed.

(** X9. In every state the service reaches, an invite and a session are
    stored under the id they carry, and every live session was put there
    by an event of the run that is the gateway's answer to a suspended
    accept: its [dbGameId] is the row id of that very answer, its host is
    the inviter and its guest the acceptor of that accept, and the
    acceptor is the invitee of the invite.  Every accept that still
    awaits the gateway was made by the invitee of the invite it took out
    of the table. *)
Theorem reachable_tables_consistent (evs : list Event) :
  (∀ (k : string) (invite : Invite),
     activeInvites (run init evs).1 !! k = Some invite → i_id invite = k)
  ∧ (∀ (k : string) (game : Game),
       activeGames (run init evs).1 !! k = Some game →
       g_id game = k
       ∧ ∃ (evs1 evs2 : list Event) (j : nat) (row u : Z) (i : string)
           (invite : Invite),
           evs = evs1 ++ Resume j (Returned row) k :: evs2
           ∧ suspended (run init evs1).1 !! j
             = Some (AwaitCreate u i invite)
           ∧ toUserId invite = u
           ∧ game = mkGame k (fromUserId invite) u (Some row))
  ∧ (∀ (u : Z) (k : string) (invite : Invite),
       AwaitCreate u k invite ∈ suspended (run init evs).1 →
       toUserId invite = u ∧ i_id invite = k).
Proof.
  pose proof (tables_consistent_run evs init tables_consistent_init)
    as (Hinv & Hgames & Hsus).
  split; [|split].
  - intros k invite Hk. by apply (Hinv k).
  - intros k game Hk. split; [by apply (Hgames k game Hk)|].
    destruct (session_origin evs k game Hk)
      as (evs1 & evs2 & j & row & u & i & invite & Hevs & Hj & Hgame).
    exists evs1, evs2, j, row, u, i, invite.
    split; [done|]. split; [done|]. split; [|done].
    pose proof (tables_consistent_run evs1 init tables_consistent_init)
      as (_ & _ & Hsus1).
    rewrite Forall_forall in Hsus1.
    apply list_elem_of_lookup_2 in Hj. by apply (Hsus1 _ Hj).
  - intros u k invite Hin. rewrite Forall_forall in Hsus.
    apply (Hsus _ Hin).
Qed.

Lemma reachable_tables_consistent_witness :
  (∀ (k : string) (invite : Invite),
     activeInvites (run init playing_trace).1 !! k = Some invite →
     i_id invite = k)
  ∧ (∀ (k : string) (game : Game),
       activeGames (run init playing_trace).1 !! k = Some game →
       g_id game = k
       ∧ ∃ (evs1 evs2 : list Event) (j : nat) (row u : Z) (i : string)
           (invite : Invite),
           playing_trace = evs1 ++ Resume j (Returned row) k :: evs2
           ∧ suspended (run init evs1).1 !! j
             = Some (AwaitCreate u i invite)
           ∧ toUserId invite = u
           ∧ game = mkGame k (fromUserId invite) u (Some row))
  ∧ (∀ (u : Z) (k : string) (invite : Invite),
       AwaitCreate u k invite ∈ suspended (run init playing_trace).1 →
       toUserId invite = u ∧ i_id invite = k).
Proof. apply (reachable_tables_consistent playing_trace). Defined.

(** X10. A session is never created on its own: when an event puts a session
    into the table (or replaces the one stored under an id), the event
    is the gateway's answer to a suspended accept, and the session binds
    the inviter of the accepted invite as host and the acceptor as guest
    under the id generated at that moment. *)
Theorem session_appears_only_on_accept (st : State) (ev : Event)
    (k : string) (game : Game) :
  activeGames (step st ev).1 !! k = Some game →
  activeGames st !! k ≠ Some game →
  ∃ (j : nat) (row u : Z) (i : string) (invite : Invite),
    ev = Resume j (Returned row) k
    ∧ suspended st !! j = Some (AwaitCreate u i invite)
    ∧ game = mkGame k (fromUserId invite) u (Some row).
Proof.
  intros Hnew Hold.
  destruct ev as [a|a s|c msg gen now|j reply gen|j|]; simpl in Hnew.
  - done.
  - unfold unregister in Hnew. repeat case_match; simpl in *; congruence.
  - destruct msg; simpl in Hnew; try done.
    + unfold handleGameInvite in Hnew. by case_match.
    + unfold handleInviteAccept in Hnew. by repeat case_match.
    + unfold handleInviteDecline in Hnew. by repeat case_match.
    + unfold relayPaddleUpdate in Hnew. by repeat case_match.
    + unfold relayGameState in Hnew. by repeat case_match.
    + unfold handleGameEnd, finishGameEnd in Hnew.
      repeat case_match; simpl in Hnew; try done.
      apply lookup_delete_Some in Hnew as [_ ?]. done.
  - unfold resume in Hnew.
    destruct (suspended st !! j) as [f|] eqn:E; [|done].
    destruct f as [u i invite|g0 game0 w l r], reply as [row|];
      simpl in Hnew; try done.
    + destruct (decide (gen = k)) as [->|Hne].
      * rewrite lookup_insert_eq in Hnew. injection Hnew as <-.
        by exists j, row, u, i, invite.
      * rewrite lookup_insert_ne in Hnew by done. done.
    + unfold finishGameEnd in Hnew. simpl in Hnew.
      apply lookup_delete_Some in Hnew as [_ ?]. done.
  - unfold fireTimer, expireInvite in Hnew. by repeat case_match.
  - done.
Qed.

Lemma session_appears_only_on_accept_witness :
  ∃ (j : nat) (row u : Z) (i : string) (invite : Invite),
    Resume 0 (Returned 7) "g1" = Resume j (Returned row) "g1"
    ∧ suspended (handleInviteAccept invited 2 "i1").1 !! j
      = Some (AwaitCreate u i invite)
    ∧ game1 = mkGame "g1" (fromUserId invite) u (Some row).
Proof.
  apply (session_appears_only_on_accept
           (handleInviteAccept invited 2 "i1").1
           (Resume 0 (Returned 7) "g1") "g1" game1).
  - vm_compute. reflexivity.
  - vm_compute. discriminate.
Defined.

(** X11. A live session stays as it is until the game is ended: if an event
    removes or changes the session stored under an id, the event is a
    [game_end] frame for that id, or the gateway's answer to a suspended
    [game_end] for that id, or the gateway's answer to an accept for
    which that very id was generated anew.  Closing a connection, in
    particular, never ends a session. *)
Theorem session_kept_until_game_end (st : State) (ev : Event) (k : string)
    (game : Game) :
  activeGames st !! k = Some game →
  activeGames (step st ev).1 !! k ≠ Some game →
  (∃ (c : Conn) (w l r : Z) (gen : string) (now : Z),
     ev = Frame c (MGameEnd k w l r) gen now)
  ∨ (∃ (j : nat) (row : Z) (gen : string) (game0 : Game) (w l r : Z),
       ev = Resume j (Returned row) gen
       ∧ suspended st !! j = Some (AwaitUpdate k game0 w l r))
  ∨ (∃ (j : nat) (row u : Z) (i : string) (invite : Invite),
       ev = Resume j (Returned row) k
       ∧ suspended st !! j = Some (AwaitCreate u i invite)).
Proof.
  intros Hold Hnew.
  destruct ev as [a|a s|c msg gen now|j reply gen|j|]; simpl in Hnew.
  - done.
  - exfalso. apply Hnew. unfold unregister. by repeat case_match.
  - destruct msg; simpl in Hnew;
      try (exfalso; apply Hnew;
           unfold handleGameInvite, handleInviteAccept, handleInviteDecline,
             relayPaddleUpdate, relayGameState;
           by repeat case_match).
    destruct (decide (game_id = k)) as [->|Hne].
    + left. by exists c, winner_id, left_score, right_score, gen, now.
    + exfalso. apply Hnew. unfold handleGameEnd, finishGameEnd.
      repeat case_match; simpl; try done.
      by rewrite lookup_delete_ne.
  - unfold resume in Hnew.
    destruct (suspended st !! j) as [f|] eqn:E; [|done].
    destruct f as [u i invite|g0 game0 w l r], reply as [row|];
      simpl in Hnew; try done.
    + destruct (decide (gen = k)) as [->|Hne].
      * right. right. by exists j, row, u, i, invite.
      * by rewrite lookup_insert_ne in Hnew.
    + unfold finishGameEnd in Hnew. simpl in Hnew.
      destruct (decide (g0 = k)) as [->|Hne].
      * right. left. by exists j, row, gen, game0, w, l, r.
      * by rewrite lookup_delete_ne in Hnew.
  - exfalso. apply Hnew. unfold fireTimer, expireInvite.
    by repeat case_match.
  - done.
Qed.

Lemma session_kept_until_game_end_witness :
  (∃ (c : Conn) (w l r : Z) (gen : string) (now : Z),
     Resume 0 (Returned 7) "-" = Frame c (MGameEnd "g1" w l r) gen now)
  ∨ (∃ (j : nat) (row : Z) (gen : string) (game0 : Game) (w l r : Z),
       Resume 0 (Returned 7) "-" = Resume j (Returned row) gen
       ∧ suspended (handleGameEnd playing 1 "g1" 1 11 7).1 !! j
         = Some (AwaitUpdate "g1" game0 w l r))
  ∨ (∃ (j : nat) (row u : Z) (i : string) (invite : Invite),
       Resume 0 (Returned 7) "-" = Resume j (Returned row) "g1"
       ∧ suspended (handleGameEnd playing 1 "g1" 1 11 7).1 !! j
         = Some (AwaitCreate u i invite)).
Proof.
  apply (session_kept_until_game_end
           (handleGameEnd playing 1 "g1" 1 11 7).1
           (Resume 0 (Returned 7) "-") "g1" game1).
  - vm_compute. reflexivity.
  - vm_compute. discriminate.
Defined.

(** X12. [handleGameEnd] does not look at the table again after its [await]:
    when a second [game_end] frame for a live session arrives before the
    gateway has answered the first, both updates are requested on the
    same match record, and when the two answers have come each of host
    and guest has been sent [game_ended] twice, first with the scores of
    the first frame and then with those of the second. *)
Theorem game_end_twice_notifies_twice (st : State) (k : string)
    (game : Game) (d : Z) (c1 c2 : Conn) (w1 l1 r1 w2 l2 r2 : Z)
    (gen1 gen2 gen3 gen4 : string) (now1 now2 row1 row2 : Z) :
  activeGames st !! k = Some game →
  truthyId (dbGameId game) = Some d →
  run st [Frame c1 (MGameEnd k w1 l1 r1) gen1 now1;
          Frame c2 (MGameEnd k w2 l2 r2) gen2 now2;
          Resume (length (suspended st)) (Returned row1) gen3;
          Resume (length (suspended st)) (Returned row2) gen4]
  = (with_activeGames (delete k) st,
     [DbUpdate d l1 r1 w1; DbUpdate d l2 r2 w2]
     ++ ((λ h, Send h (GameEnded k w1 l1 r1)) <$> handles st (hostId game))
     ++ ((λ h, Send h (GameEnded k w1 l1 r1)) <$> handles st (guestId game))
     ++ ((λ h, Send h (GameEnded k w2 l2 r2)) <$> handles st (hostId game))
     ++ ((λ h, Send h (GameEnded k w2 l2 r2)) <$> handles st (guestId game))).
Proof.
  intros Hk Hd. destruct st as [cl inv gm ts ks ns]. simpl in Hk.
  cbn [suspended].
  set (st0 := mkState cl inv gm ts ks ns).
  set (A1 := AwaitUpdate k game w1 l1 r1).
  set (A2 := AwaitUpdate k game w2 l2 r2).
  assert (E1 : step st0 (Frame c1 (MGameEnd k w1 l1 r1) gen1 now1)
               = (mkState cl inv gm ts (ks ++ [A1]) ns,
                  [DbUpdate d l1 r1 w1])).
  { simpl. unfold handleGameEnd. simpl. by rewrite Hk, Hd. }
  assert (E2 : step (mkState cl inv gm ts (ks ++ [A1]) ns)
                 (Frame c2 (MGameEnd k w2 l2 r2) gen2 now2)
               = (mkState cl inv gm ts (ks ++ [A1; A2]) ns,
                  [DbUpdate d l2 r2 w2])).
  { simpl. unfold handleGameEnd. simpl. rewrite Hk, Hd.
    unfold with_suspended. simpl. by rewrite <- app_assoc. }
  assert (E3 : step (mkState cl inv gm ts (ks ++ [A1; A2]) ns)
                 (Resume (length ks) (Returned row1) gen3)
               = (mkState cl inv (delete k gm) ts (ks ++ [A2]) ns,
                  sendToUser st0 (hostId game) (GameEnded k w1 l1 r1)
                  ++ sendToUser st0 (guestId game) (GameEnded k w1 l1 r1))).
  { simpl. unfold resume. simpl.
    rewrite lookup_app_r by lia. rewrite Nat.sub_diag. simpl.
    unfold finishGameEnd, with_activeGames, with_suspended. simpl.
    by rewrite delete_middle. }
  assert (E4 : step (mkState cl inv (delete k gm) ts (ks ++ [A2]) ns)
                 (Resume (length ks) (Returned row2) gen4)
               = (mkState cl inv (delete k gm) ts ks ns,
                  sendToUser st0 (hostId game) (GameEnded k w2 l2 r2)
                  ++ sendToUser st0 (guestId game) (GameEnded k w2 l2 r2))).
  { simpl. unfold resume. simpl.
    rewrite lookup_app_r by lia. rewrite Nat.sub_diag. simpl.
    unfold finishGameEnd, with_activeGames, with_suspended. simpl.
    rewrite delete_middle, app_nil_r.
    by rewrite (delete_id (delete k gm)) by apply lookup_delete_eq. }
  rewrite run_cons, E1. cbn [fst snd].
  rewrite run_cons, E2. cbn [fst snd].
  rewrite run_cons, E3. cbn [fst snd].
  rewrite run_cons, E4. cbn [fst snd].
  rewrite !sendToUser_handles. simpl.
  by rewrite app_nil_r, <- !app_assoc.
Qed.

Lemma game_end_twice_notifies_twice_witness :
  run playing [Frame ann (MGameEnd "g1" 1 11 7) "-" 0;
               Frame bob (MGameEnd "g1" 2 3 11) "-" 0;
               Resume 0 (Returned 7) "-";
               Resume 0 (Returned 7) "-"]
  = (with_activeGames (delete "g1"%string) playing,
     [DbUpdate 7 11 7 1; DbUpdate 7 3 11 2;
      Send 0%nat (GameEnded "g1" 1 11 7); Send 1%nat (GameEnded "g1" 1 11 7);
      Send 0%nat (GameEnded "g1" 2 3 11); Send 1%nat (GameEnded "g1" 2 3 11)]).
Proof.
  apply (game_end_twice_notifies_twice playing "g1" game1 7 ann bob
           1 11 7 2 3 11 "-" "-" "-" "-" 0 0 7 7); reflexivity.
Defined.

Lemma is_traffic_step (st : State) (ev : Event) :
  is_traffic ev = true → (step st ev).1 = st.
Proof.
  destruct ev as [a|a s|c msg gen now|j reply gen|j|]; try done.
  destruct msg; try done; simpl; intros _.
  - unfold relayPaddleUpdate. by case_match.
  - unfold relayGameState. by repeat case_match.
Qed.

(** X13. Keep-alive and relay traffic never changes a table: after any
    sequence of ping, paddle and state frames, frames of an unknown type
    and chat notifications, from whomever and for whatever session id,
    the registry, the invites, the sessions, the timers and the
    suspended handlers are what they were. *)
Theorem traffic_leaves_state (st : State) (evs : list Event) :
  Forall (λ ev, is_traffic ev = true) evs → (run st evs).1 = st.
Proof.
  induction 1 as [|ev rest Hev _ IH]; [done|].
  rewrite run_cons. simpl. by rewrite (is_traffic_step st ev Hev).
Qed.

Lemma traffic_leaves_state_witness : (run playing relay_traffic).1 = playing.
Proof.
  apply (traffic_leaves_state playing relay_traffic). repeat constructor.
Defined.

(** ** The conversation list of [GET /conversations] *)

Lemma map_get_None_keys (k : Z) (m : Chat.JsMap) :
  Chat.map_get k m = None ↔ k ∉ m.*1.
Proof.
  induction m as [|[k' v] m IH]; simpl.
  - split; [intros _; apply not_elem_of_nil | done].
  - rewrite not_elem_of_cons. destruct (decide (k' = k)) as [->|Hne].
    + split; [done | by intros [? _]].
    + rewrite IH. split; [by intros ? | by intros [_ ?]].
Qed.

Lemma map_get_set_eq (k : Z) (v : Chat.Conversation) (m : Chat.JsMap) :
  Chat.map_get k (Chat.map_set k v m) = Some v.
Proof.
  induction m as [|[k' v'] m IH]; simpl.
  - by rewrite decide_True.
  - destruct (decide (k' = k)) as [->|Hne]; simpl.
    + by rewrite decide_True.
    + by rewrite decide_False.
Qed.

Lemma map_get_set_ne (k k' : Z) (v : Chat.Conversation) (m : Chat.JsMap) :
  k' ≠ k → Chat.map_get k' (Chat.map_set k v m) = Chat.map_get k' m.
Proof.
  intros Hne. induction m as [|[k0 v0] m IH]; simpl.
  - by rewrite decide_False.
  - destruct (decide (k0 = k)) as [->|Hk0]; simpl.
    + by rewrite !decide_False.
    + by rewrite IH.
Qed.

Lemma keys_set_absent (k : Z) (v : Chat.Conversation) (m : Chat.JsMap) :
  Chat.map_get k m = None → Chat.map_set k v m = m ++ [(k, v)].
Proof.
  induction m as [|[k0 v0] m IH]; simpl; [done|].
  destruct (decide (k0 = k)); [done|]. intros H. by rewrite IH.
Qed.

Lemma map_get_update_eq (f : Chat.Conversation → Chat.Conversation) (k : Z)
    (m : Chat.JsMap) :
  Chat.map_get k (Chat.map_update f k m) = f <$> Chat.map_get k m.
Proof.
  induction m as [|[k0 v0] m IH]; simpl; [done|].
  destruct (decide (k0 = k)) as [->|Hne]; simpl.
  - by rewrite decide_True.
  - by rewrite decide_False.
Qed.

Lemma map_get_update_ne (f : Chat.Conversation → Chat.Conversation)
    (k k' : Z) (m : Chat.JsMap) :
  k' ≠ k → Chat.map_get k' (Chat.map_update f k m) = Chat.map_get k' m.
Proof.
  intros Hne. induction m as [|[k0 v0] m IH]; simpl; [done|].
  destruct (decide (k0 = k)) as [->|Hk0]; simpl.
  - by rewrite !decide_False.
  - by rewrite IH.
Qed.

Lemma keys_update (f : Chat.Conversation → Chat.Conversation) (k : Z)
    (m : Chat.JsMap) :
  (Chat.map_update f k m).*1 = m.*1.
Proof.
  induction m as [|[k0 v0] m IH]; [done|]. simpl.
  destruct (decide (k0 = k)); [done|]. rewrite !fmap_cons. by f_equal.
Qed.

Lemma elem_of_map_get (k : Z) (v : Chat.Conversation) (m : Chat.JsMap) :
  NoDup m.*1 → ((k, v) ∈ m ↔ Chat.map_get k m = Some v).
Proof.
  induction m as [|[k0 v0] m IH]; simpl; intros Hnd.
  - split; [by intros ?%elem_of_nil | done].
  - apply NoDup_cons in Hnd as [Hk0 Hnd]. rewrite elem_of_cons.
    destruct (decide (k0 = k)) as [->|Hne].
    + split.
      * intros [[= ->]|Hin]; [done|]. exfalso. apply Hk0.
        apply list_elem_of_fmap. by exists (k, v).
      * intros [= ->]. by left.
    + rewrite <- (IH Hnd). split; [|by right].
      intros [[= ? ?]|?]; [congruence|done].
Qed.

Lemma conversationsMap_snoc (userId : Z) (pre : list Chat.Message)
    (msg : Chat.Message) :
  Chat.conversationsMap userId (pre ++ [msg])
  = Chat.visit userId (Chat.conversationsMap userId pre) msg.
Proof. unfold Chat.conversationsMap. by rewrite foldl_app. Qed.

Lemma map_has_false (k : Z) (m : Chat.JsMap) :
  Chat.map_has k m = false ↔ Chat.map_get k m = None.
Proof.
  unfold Chat.map_has. rewrite bool_decide_eq_false, <- eq_None_not_Some.
  done.
Qed.

Lemma keys_visit (userId : Z) (m : Chat.JsMap) (msg : Chat.Message) :
  (Chat.visit userId m msg).*1
  = if decide (Chat.partnerId userId msg ∈ m.*1) then m.*1
    else m.*1 ++ [Chat.partnerId userId msg].
Proof.
  unfold Chat.visit.
  assert (Hks : (if negb (Chat.map_has (Chat.partnerId userId msg) m)
                 then Chat.map_set (Chat.partnerId userId msg)
                        (Chat.opening userId msg) m
                 else m).*1
                = if decide (Chat.partnerId userId msg ∈ m.*1) then m.*1
                  else m.*1 ++ [Chat.partnerId userId msg]).
  { destruct (Chat.map_has (Chat.partnerId userId msg) m) eqn:E; simpl.
    - rewrite decide_True; [done|].
      destruct (decide (Chat.partnerId userId msg ∈ m.*1)); [done|].
      apply map_get_None_keys, map_has_false in n. congruence.
    - apply map_has_false in E. rewrite keys_set_absent by done.
      rewrite decide_False by (by apply map_get_None_keys).
      by rewrite fmap_app. }
  destruct (Chat.unread_for userId msg); [|done].
  by rewrite keys_update.
Qed.

Lemma map_get_visit_ne (userId p : Z) (m : Chat.JsMap) (msg : Chat.Message) :
  p ≠ Chat.partnerId userId msg →
  Chat.map_get p (Chat.visit userId m msg) = Chat.map_get p m.
Proof.
  intros Hne. unfold Chat.visit.
  destruct (Chat.unread_for userId msg);
    rewrite ?map_get_update_ne by done;
    destruct (negb _); by rewrite ?map_get_set_ne by done.
Qed.

Lemma map_get_visit_eq (userId : Z) (m : Chat.JsMap) (msg : Chat.Message) :
  Chat.map_get (Chat.partnerId userId msg) (Chat.visit userId m msg)
  = Some ((if Chat.unread_for userId msg then Chat.bump else λ c, c)
            (default (Chat.opening userId msg)
               (Chat.map_get (Chat.partnerId userId msg) m))).
Proof.
  unfold Chat.visit.
  assert (Hget : Chat.map_get (Chat.partnerId userId msg)
                   (if negb (Chat.map_has (Chat.partnerId userId msg) m)
                    then Chat.map_set (Chat.partnerId userId msg)
                           (Chat.opening userId msg) m
                    else m)
                 = Some (default (Chat.opening userId msg)
                           (Chat.map_get (Chat.partnerId userId msg) m))).
  { destruct (Chat.map_has (Chat.partnerId userId msg) m) eqn:E; simpl.
    - unfold Chat.map_has in E. apply bool_decide_eq_true in E as [c Hc].
      by rewrite Hc.
    - apply map_has_false in E. by rewrite map_get_set_eq, E. }
  destruct (Chat.unread_for userId msg); [|done].
  by rewrite map_get_update_eq, Hget.
Qed.

Lemma thread_snoc (userId p : Z) (pre : list Chat.Message)
    (msg : Chat.Message) :
  Chat.thread userId p (pre ++ [msg])
  = Chat.thread userId p pre
    ++ (if decide (Chat.partnerId userId msg = p) then [msg] else []).
Proof.
  unfold Chat.thread. by rewrite filter_app.
Qed.

Lemma unread_total_snoc (userId : Z) (l : list Chat.Message)
    (msg : Chat.Message) :
  Chat.unread_total userId (l ++ [msg])
  = Chat.unread_total userId l
    + (if Chat.unread_for userId msg then 1 else 0).
Proof.
  unfold Chat.unread_total. rewrite filter_app, length_app.
  destruct (Chat.unread_for userId msg) eqn:E.
  - rewrite (filter_cons_True _ msg) by done. simpl. lia.
  - rewrite (filter_cons_False _ msg) by (by rewrite E). simpl. lia.
Qed.

(** The map the loop builds holds, under each partner, exactly the entry
    read off the list. *)
Lemma conversationsMap_get (userId : Z) (messages : list Chat.Message)
    (p : Z) :
  Chat.map_get p (Chat.conversationsMap userId messages)
  = Chat.entry_of userId p messages.
Proof.
  induction messages as [|msg pre IH] using rev_ind; [done|].
  rewrite conversationsMap_snoc. unfold Chat.entry_of.
  rewrite thread_snoc.
  destruct (decide (Chat.partnerId userId msg = p)) as [<-|Hne].
  - rewrite map_get_visit_eq, IH. unfold Chat.entry_of.
    destruct (Chat.thread userId (Chat.partnerId userId msg) pre)
      as [|first rest] eqn:Et; simpl.
    + f_equal. change [msg] with ([] ++ [msg]).
      rewrite unread_total_snoc.
      destruct (Chat.unread_for userId msg); done.
    + f_equal. rewrite (app_comm_cons rest [msg] first).
      rewrite unread_total_snoc.
      destruct (Chat.unread_for userId msg); simpl; [done|].
      unfold Chat.bump; simpl. f_equal. lia.
  - rewrite map_get_visit_ne by done. rewrite IH, app_nil_r. done.
Qed.

Lemma conversationsMap_keys (userId : Z) (messages : list Chat.Message) :
  (Chat.conversationsMap userId messages).*1
  = reverse (remove_dups (reverse (Chat.partnerId userId <$> messages))).
Proof.
  induction messages as [|msg pre IH] using rev_ind; [done|].
  rewrite conversationsMap_snoc, keys_visit, IH.
  rewrite fmap_app. simpl. rewrite reverse_snoc. simpl.
  destruct (decide_rel elem_of (Chat.partnerId userId msg)
              (reverse (Chat.partnerId userId <$> pre))) as [Hin|Hin].
  - rewrite decide_True; [done|].
    apply elem_of_reverse, elem_of_remove_dups. done.
  - rewrite decide_False; [by rewrite reverse_cons|].
    rewrite elem_of_reverse, elem_of_remove_dups. done.
Qed.

Lemma NoDup_reverse_dups (l : list Z) : NoDup (reverse (remove_dups l)).
Proof. rewrite reverse_Permutation. apply NoDup_remove_dups. Qed.

Lemma length_remove_dups (l : list Z) :
  (length (remove_dups l) ≤ length l)%nat.
Proof.
  induction l as [|x l IH]; simpl; [done|].
  destruct (decide_rel elem_of x l); simpl; lia.
Qed.

(** X14. [GET /conversations] answers with one conversation per partner: the
    keys of the map are the partners of the listed messages, each once,
    in the order in which they first occur in the list (newest first, as
    the query sorts), so there are never more conversations than
    messages. *)
Theorem conversations_one_per_partner (userId : Z)
    (messages : list Chat.Message) :
  (Chat.conversationsMap userId messages).*1
  = reverse (remove_dups (reverse (Chat.partnerId userId <$> messages)))
  ∧ NoDup (Chat.conversationsMap userId messages).*1
  ∧ (∀ p : Z,
       p ∈ (Chat.conversationsMap userId messages).*1
       ↔ ∃ msg, msg ∈ messages ∧ Chat.partnerId userId msg = p)
  ∧ (length (Chat.conversations userId messages) ≤ length messages)%nat.
Proof.
  pose proof (conversationsMap_keys userId messages) as Hk.
  split; [done|]. split; [|split].
  - rewrite Hk. apply NoDup_reverse_dups.
  - intros p. rewrite Hk, elem_of_reverse, elem_of_remove_dups,
      elem_of_reverse, list_elem_of_fmap.
    split; intros [msg [? ?]]; exists msg; done.
  - unfold Chat.conversations. rewrite length_fmap.
    rewrite <- (length_fmap fst), Hk, length_reverse.
    etrans; [apply length_remove_dups|].
    by rewrite length_reverse, length_fmap.
Qed.

(** X15. Each conversation of the answer is opened by the first listed
    message exchanged with its partner, which gives it the partner's
    user columns and its [last_message] (content, time, and whether the
    user sent it), and its [unread_count] is the number of messages of
    that thread which are addressed to the user and not read. *)
Theorem conversation_entry (userId : Z) (messages : list Chat.Message)
    (p : Z) (conv : Chat.Conversation) :
  (p, conv) ∈ Chat.conversationsMap userId messages →
  ∃ (first : Chat.Message) (rest : list Chat.Message),
    Chat.thread userId p messages = first :: rest
    ∧ Chat.user conv = Chat.partner userId first
    ∧ Chat.last_message conv
      = Chat.mkLastMessage (Chat.content first) (Chat.sentAt first)
          (bool_decide (Chat.senderId first = userId))
    ∧ Chat.unread_count conv
      = Chat.unread_total userId (Chat.thread userId p messages).
Proof.
  intros Hin.
  apply elem_of_map_get in Hin.
  - rewrite conversationsMap_get in Hin. unfold Chat.entry_of in Hin.
    destruct (Chat.thread userId p messages) as [|first rest]; [done|].
    injection Hin as <-. by exists first, rest.
  - rewrite conversationsMap_keys. apply NoDup_reverse_dups.
Qed.

Lemma conversation_entry_witness :
  ∃ (first : Chat.Message) (rest : list Chat.Message),
    Chat.thread 1 2 Chat.inbox = first :: rest
    ∧ Chat.user
        (Chat.mkConversation Chat.ben
           (Chat.mkLastMessage [104; 105]%N 40 false) 2)
      = Chat.partner 1 first
    ∧ Chat.last_message
        (Chat.mkConversation Chat.ben
           (Chat.mkLastMessage [104; 105]%N 40 false) 2)
      = Chat.mkLastMessage (Chat.content first) (Chat.sentAt first)
          (bool_decide (Chat.senderId first = 1))
    ∧ Chat.unread_count
        (Chat.mkConversation Chat.ben
           (Chat.mkLastMessage [104; 105]%N 40 false) 2)
      = Chat.unread_total 1 (Chat.thread 1 2 Chat.inbox).
Proof.
  apply (conversation_entry 1 Chat.inbox 2).
  vm_compute. apply list_elem_of_here.
Defined.

Lemma unread_sum_app (l1 l2 : list Chat.Conversation) :
  Chat.unread_sum (l1 ++ l2) = Chat.unread_sum l1 + Chat.unread_sum l2.
Proof.
  unfold Chat.unread_sum. induction l1 as [|c l1 IH]; simpl; [done|].
  rewrite IH. lia.
Qed.

Lemma unread_sum_bump (k : Z) (m : Chat.JsMap) :
  is_Some (Chat.map_get k m) →
  Chat.unread_sum (Chat.map_update Chat.bump k m).*2
  = Chat.unread_sum m.*2 + 1.
Proof.
  induction m as [|[k0 v0] m IH]; [by intros [? ?]|].
  cbn [Chat.map_get Chat.map_update].
  destruct (decide (k0 = k)) as [->|Hne]; intros Hs; rewrite !fmap_cons;
    unfold Chat.unread_sum in *; cbn [foldr snd Chat.bump Chat.unread_count].
  - unfold Chat.bump. cbn [Chat.unread_count]. lia.
  - rewrite (IH Hs). lia.
Qed.

Lemma unread_sum_visit (userId : Z) (m : Chat.JsMap) (msg : Chat.Message) :
  Chat.unread_sum (Chat.visit userId m msg).*2
  = Chat.unread_sum m.*2 + (if Chat.unread_for userId msg then 1 else 0).
Proof.
  unfold Chat.visit.
  destruct (Chat.map_has (Chat.partnerId userId msg) m) eqn:E; simpl.
  - destruct (Chat.unread_for userId msg); [|lia].
    apply unread_sum_bump. by apply bool_decide_eq_true in E.
  - apply map_has_false in E. rewrite keys_set_absent by done.
    assert (Hsum : Chat.unread_sum
                     (m ++ [(Chat.partnerId userId msg,
                             Chat.opening userId msg)]).*2
                   = Chat.unread_sum m.*2).
    { rewrite fmap_app, unread_sum_app. unfold Chat.unread_sum. simpl.
      lia. }
    destruct (Chat.unread_for userId msg); [|lia].
    rewrite unread_sum_bump, Hsum; [done|].
    rewrite <- (keys_set_absent _ (Chat.opening userId msg)) by done.
    rewrite map_get_set_eq. by eexists.
Qed.

(** X16. No unread message is lost or counted twice: the [unread_count]s of
    the answer add up to the number of listed messages that are addressed
    to the user and not read. *)
Theorem conversations_unread_total (userId : Z)
    (messages : list Chat.Message) :
  Chat.unread_sum (Chat.conversations userId messages)
  = Chat.unread_total userId messages.
Proof.
  unfold Chat.conversations.
  induction messages as [|msg pre IH] using rev_ind; [done|].
  rewrite conversationsMap_snoc, unread_sum_visit, IH.
  by rewrite unread_total_snoc.
Qed.

(** ** The check of [POST /messages/:userId] *)

Lemma trimStart_split (s : Chat.jsstring) :
  ∃ ws : Chat.jsstring,
    s = ws ++ Chat.trimStart s
    ∧ Forall (λ c, Chat.isWhiteSpace c = true) ws.
Proof.
  induction s as [|c s (ws & Heq & Hws)]; simpl.
  - by exists [].
  - destruct (Chat.isWhiteSpace c) eqn:E.
    + exists (c :: ws). split; [by rewrite <- app_comm_cons, <- Heq|].
      by constructor.
    + by exists [].
Qed.

Lemma trimStart_head (s : Chat.jsstring) (c : N) :
  head (Chat.trimStart s) = Some c → Chat.isWhiteSpace c = false.
Proof.
  induction s as [|c0 s IH]; simpl; [done|].
  destruct (Chat.isWhiteSpace c0) eqn:E; [done|].
  simpl. by intros [= <-].
Qed.

Lemma trimStart_nil (s : Chat.jsstring) :
  Chat.trimStart s = [] ↔ Forall (λ c, Chat.isWhiteSpace c = true) s.
Proof.
  induction s as [|c s IH]; simpl; [done|].
  destruct (Chat.isWhiteSpace c) eqn:E.
  - rewrite IH. split; [by constructor | by inversion 1].
  - split; [done|]. inversion 1; congruence.
Qed.

Lemma trimStart_snoc (s : Chat.jsstring) (c : N) :
  Chat.isWhiteSpace c = false →
  Chat.trimStart (s ++ [c]) = Chat.trimStart s ++ [c].
Proof.
  intros Hc. induction s as [|c0 s IH]; simpl.
  - by rewrite Hc.
  - by destruct (Chat.isWhiteSpace c0).
Qed.

Lemma trimEnd_cons (c : N) (s : Chat.jsstring) :
  Chat.isWhiteSpace c = false →
  Chat.trimEnd (c :: s) = c :: Chat.trimEnd s.
Proof.
  intros Hc. unfold Chat.trimEnd.
  by rewrite reverse_cons, trimStart_snoc, reverse_snoc.
Qed.

Lemma trimEnd_split (s : Chat.jsstring) :
  ∃ ws : Chat.jsstring,
    s = Chat.trimEnd s ++ ws
    ∧ Forall (λ c, Chat.isWhiteSpace c = true) ws.
Proof.
  destruct (trimStart_split (reverse s)) as (ws & Heq & Hws).
  exists (reverse ws). split; [|by apply Forall_reverse].
  unfold Chat.trimEnd. rewrite <- reverse_app, <- Heq.
  by rewrite reverse_involutive.
Qed.

Lemma trim_cases (s : Chat.jsstring) :
  (Chat.trimStart s = [] ∧ Chat.trim s = [])
  ∨ (∃ (c : N) (r : Chat.jsstring),
       Chat.trimStart s = c :: r ∧ Chat.isWhiteSpace c = false
       ∧ Chat.trim s = c :: Chat.trimEnd r).
Proof.
  unfold Chat.trim. destruct (Chat.trimStart s) as [|c r] eqn:E.
  - by left.
  - right. exists c, r.
    assert (Hc : Chat.isWhiteSpace c = false)
      by (apply (trimStart_head s); by rewrite E).
    by rewrite trimEnd_cons.
Qed.

Lemma trim_nil (s : Chat.jsstring) :
  Chat.trim s = [] ↔ Forall (λ c, Chat.isWhiteSpace c = true) s.
Proof.
  rewrite <- trimStart_nil.
  destruct (trim_cases s) as [[H1 H2]|(c & r & H1 & _ & H2)];
    rewrite H1, H2; done.
Qed.

(** X17. A message is refused with status 400, and nothing is stored, exactly
    when the body has no [content], or [content] is empty or consists of
    white space only; every other message is handed to the gateway with
    the caller as sender and the path's user as receiver. *)
Theorem post_message_rejected_iff_blank (userId targetId : Z)
    (content : option Chat.jsstring) :
  (Chat.postMessage userId targetId content
   = Chat.Rejected 400 "Message cannot be empty"
   ↔ content = None
     ∨ ∃ s, content = Some s ∧ Forall (λ c, Chat.isWhiteSpace c = true) s)
  ∧ (∀ s, content = Some s →
       ¬ Forall (λ c, Chat.isWhiteSpace c = true) s →
       Chat.postMessage userId targetId content
       = Chat.Created userId targetId (Chat.trim s)).
Proof.
  assert (Hblank : ∀ s : Chat.jsstring,
            bool_decide (s = []) || bool_decide (length (Chat.trim s) = 0%nat)
            = true ↔ Forall (λ c, Chat.isWhiteSpace c = true) s).
  { intros s. rewrite orb_true_iff, !bool_decide_eq_true.
    rewrite length_zero_iff_nil, trim_nil. split; [|by right].
    intros [->|?]; [constructor|done]. }
  split.
  - destruct content as [s|]; simpl.
    + destruct (bool_decide (s = []) || _) eqn:E.
      * apply Hblank in E. split; [|done]. intros _. right. by exists s.
      * split; [done|]. intros [?|(s' & [= <-] & Hs)]; [done|].
        apply Hblank in Hs. congruence.
    + split; [by left | done].
  - intros s -> Hs. simpl.
    destruct (bool_decide (s = []) || _) eqn:E; [|done].
    by apply Hblank in E.
Qed.

Lemma post_message_rejected_iff_blank_witness :
  Chat.postMessage 1 2 (Some [32; 104; 105; 10]%N)
  = Chat.Created 1 2 (Chat.trim [32; 104; 105; 10]%N).
Proof.
  apply (post_message_rejected_iff_blank 1 2 (Some [32; 104; 105; 10]%N));
    [reflexivity|].
  intros H. inversion H as [|? ? _ H']. inversion H' as [|? ? Hh _].
  vm_compute in Hh. discriminate.
Defined.

(** X18. What is stored for an accepted message is the body's [content] with
    the white space at both ends taken off and nothing else changed:
    the content is the stored text between two runs of white space, and
    the stored text is not empty and neither begins nor ends with white
    space. *)
Theorem post_message_stores_trimmed (userId targetId : Z)
    (s : Chat.jsstring) (a b : Z) (stored : Chat.jsstring) :
  Chat.postMessage userId targetId (Some s) = Chat.Created a b stored →
  a = userId ∧ b = targetId
  ∧ stored ≠ []
  ∧ (∃ ws1 ws2 : Chat.jsstring,
       s = ws1 ++ stored ++ ws2
       ∧ Forall (λ c, Chat.isWhiteSpace c = true) ws1
       ∧ Forall (λ c, Chat.isWhiteSpace c = true) ws2)
  ∧ (∀ c : N, head stored = Some c → Chat.isWhiteSpace c = false)
  ∧ (∀ c : N, last stored = Some c → Chat.isWhiteSpace c = false).
Proof.
  simpl. destruct (bool_decide (s = []) || _) eqn:E; [done|].
  intros [= <- <- <-].
  apply orb_false_iff in E as [_ E]. apply bool_decide_eq_false in E.
  assert (Hne : Chat.trim s ≠ []) by (intros Hnil; apply E; by rewrite Hnil).
  split; [done|]. split; [done|]. split; [done|].
  destruct (trimStart_split s) as (ws1 & Hs1 & Hws1).
  destruct (trimEnd_split (Chat.trimStart s)) as (ws2 & Hs2 & Hws2).
  split; [|split].
  - exists ws1, ws2. split; [|done].
    unfold Chat.trim. by rewrite <- Hs2.
  - intros c Hc.
    destruct (trim_cases s) as [[_ H2]|(c' & r & _ & Hc' & H2)]; [done|].
    rewrite H2 in Hc. simpl in Hc. congruence.
  - intros c Hc. unfold Chat.trim, Chat.trimEnd in Hc.
    rewrite last_reverse in Hc. by apply trimStart_head in Hc.
Qed.

Lemma post_message_stores_trimmed_witness :
  (∃ ws1 ws2 : Chat.jsstring,
     [32; 9; 104; 32; 105; 160; 10]%N = ws1 ++ [104; 32; 105]%N ++ ws2
     ∧ Forall (λ c, Chat.isWhiteSpace c = true) ws1
     ∧ Forall (λ c, Chat.isWhiteSpace c = true) ws2).
Proof.
  apply (post_message_stores_trimmed 1 2 [32; 9; 104; 32; 105; 160; 10]%N
           1 2 [104; 32; 105]%N).
  vm_compute. reflexivity.
Defined.

(** ** Delivery to a user *)

(** X5. In every reachable state [sendToUser] writes the envelope once to
    each live socket of the user and to no other socket; for a user who
    is not online it writes nothing. *)
Theorem sendToUser_once_per_socket (st : State) (u : Z) (m : Envelope) :
  reachable st →
  NoDup (sendToUser st u m)
  ∧ (∀ (h : Handle) (m' : Envelope),
       Send h m' ∈ sendToUser st u m ↔ h ∈ handles st u ∧ m' = m)
  ∧ (∀ e : Effect, e ∈ sendToUser st u m → ∃ h : Handle, e = Send h m)
  ∧ (isOnline st u = false → sendToUser st u m = []).
Proof.
  intros [evs <-]. rewrite sendToUser_handles.
  split; [|split; [|split]].
  - apply NoDup_fmap_2.
    + intros h1 h2 Heq. by injection Heq.
    + apply registry_nodup_run. intros u'. unfold handles. simpl.
      rewrite lookup_empty. constructor.
  - intros h m'. rewrite list_elem_of_fmap. split.
    + intros (h' & [= -> ->] & Hin). done.
    + intros [Hin ->]. by exists h.
  - intros e (h & -> & _)%list_elem_of_fmap. by exists h.
  - intros Hoff. by rewrite (isOnline_false_handles _ _ Hoff).
Qed.

Lemma sendToUser_once_per_socket_witness :
  NoDup (sendToUser playing_two_tabs 1 Pong)
  ∧ (∀ (h : Handle) (m' : Envelope),
       Send h m' ∈ sendToUser playing_two_tabs 1 Pong
       ↔ h ∈ handles playing_two_tabs 1 ∧ m' = Pong)
  ∧ (∀ e : Effect,
       e ∈ sendToUser playing_two_tabs 1 Pong → ∃ h : Handle, e = Send h Pong)
  ∧ (isOnline playing_two_tabs 1 = false →
     sendToUser playing_two_tabs 1 Pong = []).
Proof.
  apply (sendToUser_once_per_socket playing_two_tabs 1 Pong).
  do 3 apply reachable_run. apply reachable_init.
Defined.
